(** * filebase-js: the [FilebaseClient] of [src/lib.js]

    A shallow embedding of the client library: credential parsing
    ([parseToken], the constructor), the CAR encoders ([encodeBlob],
    [encodeDirectory], [packCar]), the S3 upload ([storeCar]) with its
    progress handler, and the [status] / [delete] lookups.

    JavaScript values are modelled by inductive types; promises by a
    state-and-exception monad over a [World] that holds the static
    properties of the class, the blockstores that were allocated and
    the trace of externally visible effects.  Numbers are exact
    rationals ([Q]); the constant [0.01] of the source is [1 # 100],
    and [NaN] and the infinities are not represented.

    What the library does not contain is kept outside: ipfs-car's
    [pack] and the string form of a CID are parameters
    ([Dependencies]); the S3 transport is an argument of each call,
    giving the events it delivers while an upload is pending and the
    answers it returns. *)

From Stdlib Require Import QArith Lia List Ascii.
From stdpp Require Import gmap strings list fin_maps pretty.
Import ListNotations.

Local Open Scope string_scope.

(** ** JavaScript values *)

Module Js.

(** The values the source inspects with [typeof]. *)
Inductive Value :=
| Undefined
| Null
| Bool (b : bool)
| Number (n : Q)
| Str (s : string)
| Object.

Definition typeof (v : Value) : string :=
  match v with
  | Undefined => "undefined"
  | Null => "object"
  | Bool _ => "boolean"
  | Number _ => "number"
  | Str _ => "string"
  | Object => "object"
  end.

(** What a [throw] carries: [new Error(msg)], [new TypeError(msg)], or
    the rejection of a promise owned by a dependency. *)
Inductive Exn :=
| Error (msg : string)
| TypeError (msg : string)
| Rejected (reason : string).

(** [a || b] on a possibly undefined string: the empty string is falsy. *)
Definition or_string (a : option string) (b : string) : string :=
  match a with
  | Some s => if String.eqb s "" then b else s
  | None => b
  end.

(** [a || b] on a possibly undefined number: zero is falsy. *)
Definition or_nat (a : option nat) (b : nat) : nat :=
  match a with
  | Some 0 => b
  | Some n => n
  | None => b
  end.

(** [String.prototype.split] on a one-character separator. *)
Fixpoint split_go (sep : ascii) (s : string) (cur : string) : list string :=
  match s with
  | EmptyString => [String.rev cur]
  | String.String c rest =>
      if Ascii.eqb c sep
      then String.rev cur :: split_go sep rest EmptyString
      else split_go sep rest (String.String c cur)
  end.

Definition split (sep : ascii) (s : string) : list string :=
  split_go sep s EmptyString.

End Js.

(** ** Node's [Buffer]: base64 decoding and the ['ascii'] rendering *)

Module Buffer.

(** The value of a base64 digit; both the standard and the URL-safe
    alphabet are accepted, as Node does. *)
Definition unbase64 (c : ascii) : option N :=
  let n := N_of_ascii c in
  if (65 <=? n)%N && (n <=? 90)%N then Some (n - 65)%N
  else if (97 <=? n)%N && (n <=? 122)%N then Some (n - 71)%N
  else if (48 <=? n)%N && (n <=? 57)%N then Some (n + 4)%N
  else if (n =? 43)%N || (n =? 45)%N then Some 62%N
  else if (n =? 47)%N || (n =? 95)%N then Some 63%N
  else None.

(** Legal digits up to the first padding character; characters outside
    the alphabet are skipped. *)
Fixpoint digits (s : string) : list N :=
  match s with
  | EmptyString => []
  | String.String c rest =>
      if Ascii.eqb c "="%char then []
      else match unbase64 c with
           | Some d => d :: digits rest
           | None => digits rest
           end
  end.

Fixpoint bytes_of_digits (fuel : nat) (ds : list N) : list N :=
  match fuel with
  | O => []
  | S fuel' =>
      match ds with
      | a :: b :: c :: d :: rest =>
          let w := (a * 262144 + b * 4096 + c * 64 + d)%N in
          (w / 65536) :: ((w / 256) mod 256) :: (w mod 256)
            :: bytes_of_digits fuel' rest
      | [a; b; c] =>
          let w := (a * 4096 + b * 64 + c)%N in
          [(w / 1024); ((w / 4) mod 256)]
      | [a; b] => [((a * 64 + b) / 16)]
      | _ => []
      end
  end%N.

(** [Buffer.from(s, 'base64')] *)
Definition from_base64 (s : string) : list N :=
  let ds := digits s in bytes_of_digits (S (length ds)) ds.

(** [buf.toString('ascii')]: the high bit of every byte is dropped. *)
Definition toString_ascii (buf : list N) : string :=
  String.string_of_list_ascii (map (fun b => ascii_of_N (b mod 128)) buf).

End Buffer.

(** ** Results and the promise monad *)

Inductive Outcome (A : Type) :=
| Return (a : A)
| Throw (e : Js.Exn).
Arguments Return {A} a.
Arguments Throw {A} e.

(** ** [parseToken] (lib.js, lines 56-91) *)

(** [@param {string | string[]} tokenToParse] *)
Inductive TokenInput :=
| TokenArray (parts : list string)
| TokenString (encoded : string).

Record ParseTokenResult := {
  credentials : list string;
  bucket : string
}.

Definition parseToken (tokenToParse : TokenInput) : Outcome ParseTokenResult :=
  match tokenToParse with
  | TokenArray parts =>
      match parts !! 2%nat with
      | None => Throw (Js.Error "No Bucket Found")
      | Some b => Return {| credentials := parts; bucket := b |}
      end
  | TokenString encoded =>
      let tokenBuffer := Buffer.from_base64 encoded in
      let token := Js.split ":"%char (Buffer.toString_ascii tokenBuffer) in
      let bucket := token !! 2%nat in
      (* [token] is the result of [split]: always an array, so the
         `Token Not Found` branch of the source cannot be taken *)
      match token !! 0%nat with
      | None => Throw (Js.Error "Invalid Access Key")
      | Some _ =>
          match token !! 1%nat with
          | None => Throw (Js.Error "Invalid Secret Key")
          | Some _ =>
              match bucket with
              | None => Throw (Js.Error "No Bucket Found")
              | Some b => Return {| credentials := token; bucket := b |}
              end
          end
      end
  end.

(** ** The world the promises run in *)

(** [CID]: version, codec and multihash digest (multiformats). *)
Record CID := {
  version : N;
  codec : N;
  multihash : list N
}.

Definition Block : Type := CID * list N.

(** A [Blockstore] object of [platform.js]: the blocks put so far, and
    whether [close()] was called. *)
Record BlockstoreState := {
  blocks : list Block;
  closed : bool
}.

(** [S3ClientConfig], with the fields the client fills in *)
Record Credentials := {
  accessKeyId : string;
  secretAccessKey : string
}.

Record S3ClientConfig := {
  s3_credentials : option Credentials;
  s3_endpoint : option string;
  maxAttempts : option nat;
  region : option string;
  forcePathStyle : option bool
}.

(** The commands handed to the S3 client. [Bucket] is whatever
    [this.bucket] holds when the command is built: possibly undefined. *)
Inductive Command :=
| PutUpload (Bucket : option string) (Key : string) (Metadata : gmap string string)
| HeadObjectCommand (Bucket : option string) (Key : string)
| DeleteObjectCommand (Bucket : option string) (Key : string).

(** Externally visible effects, oldest first: a command sent through a
    client built from a configuration, and calls of the caller's
    callbacks. *)
Inductive Event :=
| Sent (client : S3ClientConfig) (cmd : Command)
| OnStoredChunk (progressBytes : Q)
| OnComplete.

(** The static methods run with [this] bound to the class, so
    [this.token] and [this.bucket] are properties of [FilebaseClient]
    itself: one slot each, shared by all calls. *)
Record ClassProps := {
  this_token : option (list string);
  this_bucket : option string
}.

Record World := {
  statics : ClassProps;
  blockstores : list BlockstoreState;
  trace : list Event
}.

Definition initial_world : World :=
  {| statics := {| this_token := None; this_bucket := None |};
     blockstores := [];
     trace := [] |}.

(** A promise: it runs in a world, changes it, and settles. A [throw]
    keeps the changes made before it. *)
Definition M (A : Type) : Type := World -> Outcome A * World.

Definition ret {A} (a : A) : M A := fun w => (Return a, w).
Definition throw {A} (e : Js.Exn) : M A := fun w => (Throw e, w).

Definition bind {A B} (m : M A) (k : A -> M B) : M B :=
  fun w =>
    match m w with
    | (Return a, w') => k a w'
    | (Throw e, w') => (Throw e, w')
    end.

Declare Scope promise_scope.
Delimit Scope promise_scope with promise.
Notation "x <- c ;; k" := (bind c (fun x => k))
  (at level 100, c at next level, right associativity) : promise_scope.
Notation "c ;;; k" := (bind c (fun _ => k))
  (at level 100, right associativity) : promise_scope.
Local Open Scope promise_scope.

(** [try { body } finally { cleanup }] *)
Definition try_finally {A} (body : M A) (cleanup : M unit) : M A :=
  fun w =>
    match body w with
    | (r, w') =>
        match cleanup w' with
        | (Return _, w'') => (r, w'')
        | (Throw e, w'') => (Throw e, w'')
        end
    end.

Definition settle {A} (o : Outcome A) : M A :=
  match o with
  | Return a => ret a
  | Throw e => throw e
  end.

Definition emit (ev : Event) : M unit :=
  fun w => (Return tt,
            {| statics := statics w;
               blockstores := blockstores w;
               trace := (trace w ++ [ev])%list |}).

Definition get_this_token : M (option (list string)) :=
  fun w => (Return (this_token (statics w)), w).

Definition get_this_bucket : M (option string) :=
  fun w => (Return (this_bucket (statics w)), w).

Definition set_this_token (t : list string) : M unit :=
  fun w => (Return tt,
            {| statics := {| this_token := Some t;
                             this_bucket := this_bucket (statics w) |};
               blockstores := blockstores w;
               trace := trace w |}).

Definition set_this_bucket (b : option string) : M unit :=
  fun w => (Return tt,
            {| statics := {| this_token := this_token (statics w);
                             this_bucket := b |};
               blockstores := blockstores w;
               trace := trace w |}).

(** [new Blockstore()]: a fresh, empty, open store; the result is its
    index in the heap. *)
Definition new_Blockstore : M nat :=
  fun w => (Return (length (blockstores w)),
            {| statics := statics w;
               blockstores := (blockstores w ++ [{| blocks := []; closed := false |}])%list;
               trace := trace w |}).

Definition read_blockstore (id : nat) : M (list Block) :=
  fun w => (Return (match blockstores w !! id with
                    | Some bs => blocks bs
                    | None => []
                    end), w).

Definition write_blockstore (id : nat) (bl : list Block) : M unit :=
  fun w => (Return tt,
            {| statics := statics w;
               blockstores :=
                 match blockstores w !! id with
                 | Some bs => <[id := {| blocks := bl; closed := closed bs |}]> (blockstores w)
                 | None => blockstores w
                 end;
               trace := trace w |}).

(** [blockstore.close()] *)
Definition close_blockstore (id : nat) : M unit :=
  fun w => (Return tt,
            {| statics := statics w;
               blockstores :=
                 match blockstores w !! id with
                 | Some bs => <[id := {| blocks := blocks bs; closed := true |}]> (blockstores w)
                 | None => blockstores w
                 end;
               trace := trace w |}).

(** A command that goes over the network. *)
Definition is_network (ev : Event) : bool :=
  match ev with
  | Sent _ _ => true
  | _ => false
  end.

(** ** Constants (lib.js, lines 28-30) *)

Definition MAX_STORE_RETRIES : nat := 5.
Definition MAX_CONCURRENT_UPLOADS : nat := 4.
Definition DEFAULT_ENDPOINT : string := "https://s3.filebase.com".

(** ** The constructor (lib.js, lines 119-148) *)

(** [Service]: the argument the static methods destructure, and the
    shape of a constructed client. *)
Record Service := {
  endpoint : option string;
  token : option TokenInput;
  s3config : option S3ClientConfig;
  svc_bucket : option string
}.

Definition constructor (options : Service) : M Service :=
  (* the parameter default applies to [undefined] only *)
  let endpoint_ := match endpoint options with
                   | Some e => e
                   | None => DEFAULT_ENDPOINT
                   end in
  match token options, s3config options with
  | None, Some cfg =>
      match s3_credentials cfg with
      | None => throw (Js.Error "Must pass credentials")
      | Some _ =>
          ret {| endpoint := Some endpoint_; token := None;
                 s3config := Some cfg; svc_bucket := None |}
      end
  | tok, _ =>
      parsedToken <-
        match tok with
        | Some t => settle (parseToken t)
        | None =>
            (* [Buffer.from(undefined, 'base64')] *)
            throw (Js.TypeError "The first argument must be of type string or an instance of Buffer, ArrayBuffer, or Array or an Array-like Object. Received undefined")
        end ;;
      let this_token_ := credentials parsedToken in
      let this_bucket_ := Js.or_string (svc_bucket options) (bucket parsedToken) in
      ret {| endpoint := Some endpoint_;
             token := Some (TokenArray this_token_);
             s3config :=
               Some {| s3_credentials :=
                         Some {| accessKeyId := Js.or_string (this_token_ !! 0%nat) "";
                                 secretAccessKey := Js.or_string (this_token_ !! 1%nat) "" |};
                       s3_endpoint := Some endpoint_;
                       maxAttempts := Some MAX_STORE_RETRIES;
                       region := Some "us-east-1";
                       forcePathStyle := Some true |};
             svc_bucket := Some this_bucket_ |}
  end.

(** ** Blobs, files and the packer *)

(** A [Blob]: its bytes and MIME type; [blob.size] is the byte length. *)
Record Blob := {
  bytes : list N;
  type : string
}.

Definition size (b : Blob) : nat := length (bytes b).

(** A [File] is a [Blob] with a name. *)
Record File := {
  name : string;
  file_blob : Blob
}.

(** An import candidate of the unixfs importer; [content] stands for
    the stream [blob.stream()] yields. *)
Record ImportCandidate := {
  path : string;
  content : list N
}.

(** lib.js, lines 790-800 *)
Definition toImportCandidate (path : string) (blob : Blob) : ImportCandidate :=
  {| path := path; content := bytes blob |}.

(** The CAR byte stream, an [AsyncIterable<Uint8Array>]: its chunks. *)
Definition Car : Type := list (list N).

Definition car_size (car : Car) : nat :=
  fold_right (fun chunk n => (length chunk + n)%nat) 0%nat car.

Record PackOptions := {
  wrapWithDirectory : bool;
  rawLeaves : bool;
  cidVersion : nat
}.

(** What [pack] resolves to: [{ root, out }] *)
Record Packed := {
  root : CID;
  out : Car
}.

(** The dependencies whose code is not part of the library: the string
    form of a CID (multiformats) and [pack] of ipfs-car, which runs the
    unixfs importer over the candidates, puts the blocks it builds in
    the blockstore it is given (old contents in, new contents out) and
    resolves to the root and the CAR stream, or rejects. Being a
    function, [pack] gives the same answer to the same arguments: how
    the packer computes roots and blocks is outside this
    development. *)
Class Dependencies := {
  CID_toString : CID -> string;
  pack : list ImportCandidate -> PackOptions -> list Block
         -> Outcome Packed * list Block
}.

(** [new BlockstoreCarReader(version, roots, blockstore)] *)
Record CarReader := {
  reader_version : nat;
  reader_roots : list CID;
  reader_blockstore : nat
}.

Record PackedCar := {
  cid : CID;
  carReader : CarReader;
  car : Car
}.

Section Encode.

Context `{deps : Dependencies}.

(** lib.js, lines 773-779 *)
Definition packCar (input : list ImportCandidate)
    (blockstore : option nat) (wrapWithDirectory : bool) : M PackedCar :=
  blockstore <- match blockstore with
                | Some b => ret b
                | None => new_Blockstore
                end ;;
  before <- read_blockstore blockstore ;;
  let '(packed, after) :=
    pack input {| wrapWithDirectory := wrapWithDirectory;
                  rawLeaves := false;
                  cidVersion := 0 |} before in
  write_blockstore blockstore after ;;;
  packed <- settle packed ;;
  let cid := root packed in
  let car := {| reader_version := 1;
                reader_roots := [cid];
                reader_blockstore := blockstore |} in
  ret {| cid := cid; carReader := car; car := out packed |}.

(** lib.js, lines 504-512 *)
Definition encodeBlob (blob : Blob) (blockstore : option nat) : M PackedCar :=
  if Nat.eqb (size blob) 0
  then throw (Js.Error "Content size is 0, make sure to provide some content")
  else packCar [toImportCandidate "blob" blob] blockstore false.

(** The value of [size] once the packer has drained the generator:
    each file adds its [file.size]. *)
Definition total_size (files : list File) : nat :=
  fold_left (fun sum file => (sum + size (file_blob file))%nat) files 0%nat.

(** lib.js, lines 539-557. The generator that feeds the packer counts
    the bytes while the packer consumes it; the count is looked at
    after [packCar] has resolved. *)
Definition encodeDirectory (files : list File) (blockstore : option nat)
    : M PackedCar :=
  let input := map (fun file => toImportCandidate (name file) (file_blob file)) files in
  packed <- packCar input blockstore true ;;
  if Nat.eqb (total_size files) 0
  then throw (Js.Error "Total size of files should exceed 0, make sure to provide some content")
  else ret packed.

End Encode.

(** ** The transport: what the upload and the S3 client do *)

(** The events a Node [Readable] emits. ['finish'] is an event of
    [Writable] streams and is not among them. *)
Inductive ReadableEvent :=
| Close
| Data
| End_
| Error_
| Pause
| Readable
| Resume.

Definition event_name (e : ReadableEvent) : string :=
  match e with
  | Close => "close"
  | Data => "data"
  | End_ => "end"
  | Error_ => "error"
  | Pause => "pause"
  | Readable => "readable"
  | Resume => "resume"
  end.

(** [emitter.on(name, listener)]: the listeners of a stream, each with
    the event name it was registered under; a listener is represented
    by the trace event its call leaves. *)
Definition Listeners : Type := list (string * Event).

(** [emitter.emit(name)]: the listeners registered under that name are
    called, in registration order. *)
Fixpoint emit_to (ls : Listeners) (name : string) : M unit :=
  match ls with
  | [] => ret tt
  | (n, listener) :: rest =>
      (if String.eqb n name then emit listener else ret tt) ;;;
      emit_to rest name
  end.

(** What happens while [parallelUploads3.done()] is pending: the body
    stream emits its events and the upload emits [httpUploadProgress]
    with a [progress.loaded]. *)
Inductive UploadEvent :=
| Stream (e : ReadableEvent)
| HttpUploadProgress (loaded : Js.Value).

(** One run of the upload: the events in the order they are delivered,
    and how [done()] settles when no listener throws. *)
Record UploadRun := {
  delivered : list UploadEvent;
  done : option Js.Exn
}.

(** The answer to a [HeadObjectCommand] *)
Record HeadObjectOutput := {
  Metadata : option (gmap string string);
  ContentLength : Js.Value;
  LastModified : option string
}.

(** ** [storeCar] (lib.js, lines 180-254) *)

Record CarStorerOptions := {
  onStoredChunk : bool;      (* was a callback supplied *)
  onComplete : bool;
  maxRetries : option nat
}.

(** The two counters of the progress listener (lines 230-231) *)
Record Progress := {
  storedBytes : Q;
  progressBytes : Q
}.

Definition initial_progress : Progress :=
  {| storedBytes := 1 # 100; progressBytes := 1 # 100 |}.

(** The [httpUploadProgress] listener (lines 232-239). The subtraction
    is exact here and rounded to a double in the program: the value of
    one tick and its sign carry over, identities about sums of several
    ticks do not. *)
Definition on_httpUploadProgress (options : CarStorerOptions)
    (loaded : Js.Value) (st : Progress) : M Progress :=
  match loaded with
  | Js.Number loaded =>
      let progressBytes := (loaded - storedBytes st)%Q in
      let storedBytes := loaded in
      (if onStoredChunk options then emit (OnStoredChunk progressBytes) else ret tt) ;;;
      ret {| storedBytes := storedBytes; progressBytes := progressBytes |}
  | _ => throw (Js.Error "Expected Number for Loaded Progress")
  end.

(** The upload, an open [Upload] object: the client it goes through,
    the parameters captured when it was built, and the listeners of
    its body stream. *)
Record Upload := {
  client : S3ClientConfig;
  upload_Bucket : option string;
  upload_Key : string;
  body_listeners : Listeners;
  queueSize : nat;
  leavePartsOnError : bool
}.

(** Lines 186-209: the configuration. With a token and no [s3config]
    the token is parsed and [this.token], [this.bucket] are assigned,
    otherwise [this.bucket] is assigned from the argument. *)
Definition configure (svc : Service) (maxAttempts_ : option nat)
    : M S3ClientConfig :=
  let selectedEndpoint := Js.or_string (endpoint svc) DEFAULT_ENDPOINT in
  s3config_ <-
    match s3config svc, token svc with
    | None, Some token_ =>
        parsedToken <- settle (parseToken token_) ;;
        set_this_token (credentials parsedToken) ;;;
        set_this_bucket (Some (Js.or_string (svc_bucket svc) (bucket parsedToken))) ;;;
        this_token_ <- get_this_token ;;
        let this_token_ := default [] this_token_ in
        ret (Some {| s3_credentials :=
                       Some {| accessKeyId := Js.or_string (this_token_ !! 0%nat) "";
                               secretAccessKey := Js.or_string (this_token_ !! 1%nat) "" |};
                     s3_endpoint := Some selectedEndpoint;
                     maxAttempts := maxAttempts_;
                     region := Some "us-east-1";
                     forcePathStyle := Some true |})
    | s3config_, _ =>
        set_this_bucket (svc_bucket svc) ;;;
        ret s3config_
    end ;;
  match s3config_ with
  | None => throw (Js.Error "s3config not defined")
  | Some cfg => ret cfg
  end.

(** Lines 211-241, up to the [await]: the client, the body stream with
    the ['finish'] listener, the [Upload], whose [Bucket] is
    [this.bucket] as it is now, the progress listener, and the call of
    [done()], which starts the transfer. *)
Definition storeCar_begin (s3config_ : S3ClientConfig) (car : Car)
    (objectName : string) (options : CarStorerOptions) : M Upload :=
  let readableStream_listeners : Listeners :=
    if onComplete options then [("finish", OnComplete)] else [] in
  this_bucket_ <- get_this_bucket ;;
  let parallelUploads3 :=
    {| client := s3config_;
       upload_Bucket := this_bucket_;
       upload_Key := objectName;
       body_listeners := readableStream_listeners;
       queueSize := MAX_CONCURRENT_UPLOADS;
       leavePartsOnError := false |} in
  emit (Sent s3config_ (PutUpload this_bucket_ objectName {[ "import" := "car" ]})) ;;;
  ret parallelUploads3.

(** Events are delivered in order. The source only throws inside the
    emitter's call (lines 232-235); what the [Upload] does with that
    throw is not in the library. Here the delivery ends and the upload
    is rejected with the error, so a run says nothing about ticks that
    parts still in flight would report afterwards. *)
Fixpoint deliver (up : Upload) (options : CarStorerOptions)
    (evs : list UploadEvent) (st : Progress) : M Progress :=
  match evs with
  | [] => ret st
  | Stream e :: rest =>
      emit_to (body_listeners up) (event_name e) ;;;
      deliver up options rest st
  | HttpUploadProgress loaded :: rest =>
      st' <- on_httpUploadProgress options loaded st ;;
      deliver up options rest st'
  end.

(** Line 241, while the promise of [done()] is pending: the events
    are delivered, then the promise settles. *)
Definition storeCar_transfer (up : Upload) (options : CarStorerOptions)
    (run : UploadRun) : M unit :=
  deliver up options (delivered run) initial_progress ;;;
  match done run with
  | Some e => throw e
  | None => ret tt
  end.

(** Lines 243-253: the head request, built with [this.bucket] as it is
    after the upload, and the [cid] tag of the answer. *)
Definition storeCar_finish (up : Upload) (objectName : string)
    (head : Outcome HeadObjectOutput) : M string :=
  this_bucket_ <- get_this_bucket ;;
  emit (Sent (client up) (HeadObjectCommand this_bucket_ objectName)) ;;;
  carHeader <- settle head ;;
  match Metadata carHeader with
  | None => throw (Js.Error "No CID Returned from Remote")
  | Some metadata =>
      match metadata !! "cid" with
      | None => throw (Js.Error "No CID Returned from Remote")
      | Some cid_ => ret cid_
      end
  end.

(** The call run alone: its four phases one after the other. Another
    call can run where the source awaits [done()], between
    [storeCar_begin] and [storeCar_finish]; such a run is a
    composition of the phases, as in [Scenario.interleaved]. *)
Definition storeCar (svc : Service) (car : Car) (objectName : string)
    (options : CarStorerOptions)
    (run : UploadRun) (head : Outcome HeadObjectOutput) : M string :=
  s3config_ <- configure svc (Some (Js.or_nat (maxRetries options) MAX_STORE_RETRIES)) ;;
  up <- storeCar_begin s3config_ car objectName options ;;
  storeCar_transfer up options run ;;;
  storeCar_finish up objectName head.

(** ** [status] (lib.js, lines 321-385) and [delete] (lines 398-435) *)

Inductive Deal := .

Record Pin := {
  pin_cid : string;
  pin_name : string;
  pin_status : string;
  pin_created : string
}.

Record StatusResult := {
  status_cid : string;
  status_size : Q;
  deals : list Deal;
  pin : Pin;
  created : string
}.

Definition status (svc : Service) (cid_ : string) (objectName : option string)
    (head : Outcome HeadObjectOutput) : M StatusResult :=
  s3config_ <- configure svc (Some MAX_STORE_RETRIES) ;;
  this_bucket_ <- get_this_bucket ;;
  emit (Sent s3config_ (HeadObjectCommand this_bucket_ (Js.or_string objectName cid_))) ;;;
  carHeader <- settle head ;;
  match Metadata carHeader with
  | None => throw (Js.Error "No CID Returned from Remote")
  | Some metadata =>
      match metadata !! "cid" with
      | None => throw (Js.Error "No CID Returned from Remote")
      | Some remote_cid =>
          match ContentLength carHeader with
          | Js.Number contentLength =>
              match LastModified carHeader with
              | None => throw (Js.Error "Invalid Date")
              | Some displayDate =>
                  ret {| status_cid := remote_cid;
                         status_size := contentLength;
                         deals := [];
                         pin := {| pin_cid := remote_cid;
                                   pin_name := remote_cid;
                                   pin_status := "pinned";
                                   pin_created := displayDate |};
                         created := displayDate |}
              end
          | _ => throw (Js.Error "Invalid Content Length")
          end
      end
  end.

Definition delete (svc : Service) (cid_ : string) (objectName : option string)
    (answer : Outcome unit) : M unit :=
  s3config_ <- configure svc None ;;
  this_bucket_ <- get_this_bucket ;;
  emit (Sent s3config_ (DeleteObjectCommand this_bucket_ (Js.or_string objectName cid_))) ;;;
  settle answer.

(** ** [storeBlob] (lines 158-169) and [storeDirectory] (lines 266-280) *)

Section Store.

Context `{deps : Dependencies}.

Definition storeBlob (service : Service) (blob : Blob) (objectName : option string)
    (run : UploadRun) (head : Outcome HeadObjectOutput) : M string :=
  blockstore <- new_Blockstore ;;
  try_finally
    (packed <- encodeBlob blob (Some blockstore) ;;
     storedCid <- storeCar service (car packed)
                    (Js.or_string objectName (CID_toString (cid packed)))
                    {| onStoredChunk := false; onComplete := false; maxRetries := None |}
                    run head ;;
     ret storedCid)
    (close_blockstore blockstore).

Definition storeDirectory (service : Service) (filesSource : list File)
    (objectName : option string)
    (run : UploadRun) (head : Outcome HeadObjectOutput) : M string :=
  blockstore <- new_Blockstore ;;
  cidString <-
    try_finally
      (packed <- encodeDirectory filesSource (Some blockstore) ;;
       let cidString := CID_toString (cid packed) in
       storeCar service (car packed)
         (Js.or_string objectName (CID_toString (cid packed)))
         {| onStoredChunk := false; onComplete := false; maxRetries := None |}
         run head ;;;
       ret cidString)
      (close_blockstore blockstore) ;;
  ret cidString.

End Store.

(** ** Metadata: [validateERC1155] (lines 740-765), [encodeNFT]
    (lines 479-482) and [store] (lines 306-310) *)

(** A property of a metadata record: a [Blob] (or [File]), or a plain
    value. *)
Inductive FieldValue :=
| IsBlob (b : Blob)
| Plain (v : Js.Value).

(** The metadata record [store] takes: the four properties
    [validateERC1155] destructures, and the others, which only the
    token encoder reads. *)
Record ERC1155Input := {
  nft_name : Js.Value;
  description : Js.Value;
  image : FieldValue;
  decimals : Js.Value;
  properties : list (string * FieldValue)
}.

(** The text of the [console.warn] (lines 755-759) *)
Definition image_mime_warning : string :=
  "According to ERC721 Metadata JSON Schema 'image' must have 'image/*' mime type.

For better interoperability we would highly recommend storing content with different mime type under 'properties' namespace e.g. `properties: { video: file }` and using 'image' field for storing a preview image for it instead.

For more context please see ERC-721 specification https://eips.ethereum.org/EIPS/eip-721".

(** The result is what was written to the console and how the call
    ends; the console is not part of the [World]. *)
Definition validateERC1155 (input : ERC1155Input) : list string * Outcome unit :=
  match nft_name input with
  | Js.Str _ =>
      match description input with
      | Js.Str _ =>
          match image input with
          | IsBlob image_ =>
              let console :=
                if String.prefix "image/" (type image_)
                then []
                else [image_mime_warning] in
              match decimals input with
              | Js.Undefined => (console, Return tt)
              | Js.Number _ => (console, Return tt)
              | _ => (console,
                      Throw (Js.TypeError "property `decimals` must be an integer value"))
              end
          | Plain _ =>
              ([], Throw (Js.TypeError "property `image` must be a Blob or File object"))
          end
      | _ =>
          ([], Throw (Js.TypeError "string property `description` describing asset is required"))
      end
  | _ =>
      ([], Throw (Js.TypeError "string property `name` identifying the asset is required"))
  end.

(** What [Token.Token.encode] resolves to: [{ token, car, cid }] *)
Record EncodedToken (T : Type) := {
  encoded_token : T;
  encoded_car : Car;
  encoded_cid : CID
}.
Arguments encoded_token {T} _.
Arguments encoded_car {T} _.
Arguments encoded_cid {T} _.

(** [token.js] is not among the sources at hand: the type of a token
    and [Token.Token.encode] are parameters. *)
Class TokenModule := {
  TokenType : Type;
  Token_encode : ERC1155Input -> M (EncodedToken TokenType)
}.

Section Metadata.

Context `{deps : Dependencies} `{tokens : TokenModule}.

Definition encodeNFT (input : ERC1155Input) : M (EncodedToken TokenType) :=
  settle (snd (validateERC1155 input)) ;;;
  Token_encode input.

Definition store (service : Service) (metadata : ERC1155Input)
    (objectName : option string)
    (run : UploadRun) (head : Outcome HeadObjectOutput) : M TokenType :=
  encoded <- encodeNFT metadata ;;
  storeCar service (encoded_car encoded)
    (Js.or_string objectName (CID_toString (encoded_cid encoded)))
    {| onStoredChunk := false; onComplete := false; maxRetries := None |}
    run head ;;;
  ret (encoded_token encoded).

End Metadata.

(** ** The instance methods (lib.js, lines 575-719)

    Each hands [this], the constructed client, to the static method of
    the same name. *)

Module Instance.

Definition storeCar (this : Service) (car : Car) (objectName : string)
    (options : CarStorerOptions)
    (run : UploadRun) (head : Outcome HeadObjectOutput) : M string :=
  storeCar this car objectName options run head.

Definition status (this : Service) (cid_ : string) (objectName : option string)
    (head : Outcome HeadObjectOutput) : M StatusResult :=
  status this cid_ objectName head.

Definition delete (this : Service) (cid_ : string) (objectName : option string)
    (answer : Outcome unit) : M unit :=
  delete this cid_ objectName answer.

Section WithDependencies.

Context `{deps : Dependencies} `{tokens : TokenModule}.

Definition storeBlob (this : Service) (blob : Blob) (objectName : option string)
    (run : UploadRun) (head : Outcome HeadObjectOutput) : M string :=
  storeBlob this blob objectName run head.

Definition storeDirectory (this : Service) (files : list File)
    (objectName : option string)
    (run : UploadRun) (head : Outcome HeadObjectOutput) : M string :=
  storeDirectory this files objectName run head.

Definition store (this : Service) (token_ : ERC1155Input)
    (objectName : option string)
    (run : UploadRun) (head : Outcome HeadObjectOutput) : M TokenType :=
  store this token_ objectName run head.

End WithDependencies.

End Instance.

(** ** A small packer to run the client on

    A stand-in for ipfs-car in the examples below: every file becomes
    one leaf block, a wrapping directory becomes one more block that
    names its entries, identifiers are a checksum of the block bytes,
    and the CAR stream is a header chunk followed by a chunk per block
    of the store. The theorems do not depend on it. *)

Module Reference.

Definition checksum (data : list N) : N :=
  fold_left (fun h b => ((h * 31 + b + 1) mod 4294967296)%N) data 7%N.

Definition cid_of (data : list N) : CID :=
  {| version := 0; codec := 112; multihash := [18; 4; checksum data]%N |}.

Definition block_of (data : list N) : Block := (cid_of data, data).

Definition bytes_of_string (s : string) : list N :=
  map N_of_ascii (String.list_ascii_of_string s).

Definition has_block (store : list Block) (c : CID) : bool :=
  existsb (fun b => (checksum (snd b) =? nth 2 (multihash c) 0)%N) store.

(** [put]: a block already present is not stored twice. *)
Definition put (store : list Block) (b : Block) : list Block :=
  if has_block store (fst b) then store else (store ++ [b])%list.

Definition directory_node (entries : list (string * CID)) : list N :=
  flat_map (fun e => (bytes_of_string (fst e) ++ [0%N] ++ multihash (snd e))%list) entries.

Definition car_of (r : CID) (store : list Block) : Car :=
  multihash r :: map (fun b => (multihash (fst b) ++ snd b)%list) store.

Definition importer (input : list ImportCandidate) (options : PackOptions)
    (store : list Block) : Outcome Packed * list Block :=
  let leaves := map (fun c => (path c, block_of (content c))) input in
  let store1 := fold_left put (map snd leaves) store in
  if wrapWithDirectory options then
    let dir := block_of (directory_node (map (fun l => (fst l, fst (snd l))) leaves)) in
    let store2 := put store1 dir in
    (Return {| root := fst dir; out := car_of (fst dir) store2 |}, store2)
  else
    match last (map snd leaves) with
    | Some leaf => (Return {| root := fst leaf; out := car_of (fst leaf) store1 |}, store1)
    | None => (Throw (Js.Error "missing input file(s)"), store1)
    end.

Definition toString (c : CID) : string :=
  "Qm" ++ pretty (nth 2 (multihash c) 0%N).

#[export] Instance deps : Dependencies :=
  {| CID_toString := toString; pack := importer |}.

(** A stand-in for [Token.Token.encode]: the image is packed in a
    directory of its own and the token is the URL of the metadata
    document under that root. *)
Definition encode_token (input : ERC1155Input) : M (EncodedToken string) :=
  match image input with
  | IsBlob image_ =>
      packed <- packCar [toImportCandidate "image/blob" image_] None true ;;
      ret {| encoded_token := "ipfs://" ++ toString (cid packed) ++ "/metadata.json";
             encoded_car := car packed;
             encoded_cid := cid packed |}
  | Plain _ => throw (Js.TypeError "image is not a Blob")
  end.

#[export] Instance tokens : TokenModule :=
  {| TokenType := string; Token_encode := encode_token |}.

End Reference.

(** * The vocabulary of the properties *)

(** The three fields a token carries, in order: access key, secret
    key, bucket. For the string form they are the [':']-separated
    parts of the decoded text. *)
Definition fields (t : TokenInput) : list string :=
  match t with
  | TokenArray parts => parts
  | TokenString encoded =>
      Js.split ":"%char (Buffer.toString_ascii (Buffer.from_base64 encoded))
  end.

(** The message that names a field. *)
Definition field_error (i : nat) : string :=
  match i with
  | 0 => "Invalid Access Key"
  | 1 => "Invalid Secret Key"
  | _ => "No Bucket Found"
  end.

(** Field [i] of a token can be recovered: it is there. *)
Definition recoverable (t : TokenInput) (i : nat) : Prop :=
  is_Some (fields t !! i).

(** The values [onStoredChunk] was called with, in order. *)
Definition stored_chunks (tr : list Event) : list Q :=
  flat_map (fun ev => match ev with OnStoredChunk v => [v] | _ => [] end) tr.

(** How often [onComplete] was called. *)
Definition completions (tr : list Event) : nat :=
  length (List.filter (fun ev => match ev with OnComplete => true | _ => false end) tr).

(** The commands that were sent, in order. *)
Definition commands (tr : list Event) : list Command :=
  flat_map (fun ev => match ev with Sent _ c => [c] | _ => [] end) tr.

(** The world after some more events. *)
Definition log (w : World) (evs : list Event) : World :=
  {| statics := statics w;
     blockstores := blockstores w;
     trace := (trace w ++ evs)%list |}.

(** The numbers among the [progress.loaded] values, in order. *)
Fixpoint loaded_values (evs : list UploadEvent) : list Q :=
  match evs with
  | [] => []
  | HttpUploadProgress (Js.Number n) :: rest => n :: loaded_values rest
  | _ :: rest => loaded_values rest
  end.

(** Differences of consecutive values, the first one against [prev]. *)
Fixpoint deltas (prev : Q) (ns : list Q) : list Q :=
  match ns with
  | [] => []
  | n :: rest => (n - prev)%Q :: deltas n rest
  end.

(** Every [progress.loaded] of the run is a number. *)
Definition numeric (evs : list UploadEvent) : Prop :=
  Forall (fun ev => match ev with
                    | HttpUploadProgress v => Js.typeof v = "number"
                    | Stream _ => True
                    end) evs.

(** The callbacks a listener-free delivery of numeric ticks makes. *)
Definition chunk_calls (options : CarStorerOptions) (prev : Q)
    (evs : list UploadEvent) : list Event :=
  if onStoredChunk options
  then map OnStoredChunk (deltas prev (loaded_values evs))
  else [].

(** Every listener of the body stream sits under ['finish']. *)
Definition finish_only (ls : Listeners) : Prop :=
  Forall (fun l => fst l = "finish") ls.

(** The [cid] tag of a head answer, when it has one. *)
Definition remote_cid (h : HeadObjectOutput) : option string :=
  match Metadata h with
  | Some metadata => metadata !! "cid"
  | None => None
  end.

(** What a complete remote record carries: the [cid] tag, a numeric
    content length and the last-modified date. *)
Definition complete_record (h : HeadObjectOutput) : option (string * Q * string) :=
  match remote_cid h, ContentLength h, LastModified h with
  | Some c, Js.Number n, Some d => Some (c, n, d)
  | _, _, _ => None
  end.

(** The errors of an incomplete remote record. *)
Definition incomplete_record_errors : list string :=
  ["No CID Returned from Remote"; "Invalid Content Length"; "Invalid Date"].

(** The sum of the values a callback was given. *)
Definition Qsum (l : list Q) : Q := fold_right Qplus 0%Q l.

(** The blocks a blockstore argument holds: a missing argument stands
    for the fresh store [packCar] then makes. *)
Definition store_contents (blockstore : option nat) (w : World) : list Block :=
  match blockstore with
  | Some id =>
      match blockstores w !! id with
      | Some bs => blocks bs
      | None => []
      end
  | None => []
  end.

(** A blockstore argument refers to a store that exists. *)
Definition allocated (blockstore : option nat) (w : World) : Prop :=
  match blockstore with
  | Some id => (id < length (blockstores w))%nat
  | None => True
  end.

(** The blocks of the store a packed archive reads from. *)
Definition packed_blocks (p : PackedCar) (w : World) : list Block :=
  store_contents (Some (reader_blockstore (carReader p))) w.

(** Two runs of an encoder agree: both fail with the same error, or
    both yield the same root, the same archive and the same blocks. *)
Definition same_packing (x y : Outcome PackedCar * World) : Prop :=
  match x, y with
  | (Return p1, w1), (Return p2, w2) =>
      cid p1 = cid p2 /\ car p1 = car p2
      /\ packed_blocks p1 w1 = packed_blocks p2 w2
  | (Throw e1, _), (Throw e2, _) => e1 = e2
  | _, _ => False
  end.

(** The name and the bytes of each file: what the packer is given. *)
Definition directory_input (files : list File) : list (string * list N) :=
  map (fun file => (name file, bytes (file_blob file))) files.

(** The text a string token decodes to. *)
Definition decoded (encoded : string) : string :=
  Buffer.toString_ascii (Buffer.from_base64 encoded).

(** How many times a character occurs in a string. *)
Fixpoint occurrences (c : ascii) (s : string) : nat :=
  match s with
  | EmptyString => 0
  | String.String x rest =>
      if Ascii.eqb x c then S (occurrences c rest) else occurrences c rest
  end.

(** The calls [emit] makes for an event name: the listeners registered
    under it, in order. *)
Definition listener_calls (ls : Listeners) (name : string) : list Event :=
  map snd (List.filter (fun l => String.eqb (fst l) name) ls).

(** A world with other static properties. *)
Definition with_statics (w : World) (st : ClassProps) : World :=
  {| statics := st; blockstores := blockstores w; trace := trace w |}.

(** A promise whose result and whose effects are the same in every
    world: it reads neither the static properties, nor the
    blockstores, nor the trace it finds, it writes no blockstore, and
    it only adds to the trace. *)
Definition world_independent {A} (m : M A) : Prop :=
  forall w w',
    fst (m w) = fst (m w')
    /\ blockstores (snd (m w)) = blockstores w
    /\ exists evs, trace (snd (m w)) = (trace w ++ evs)%list
                   /\ trace (snd (m w')) = (trace w' ++ evs)%list.

(** Cumulative values that never go down, starting from [prev]. *)
Fixpoint nondecreasing (prev : Q) (ns : list Q) : Prop :=
  match ns with
  | [] => True
  | n :: rest => (prev <= n)%Q /\ nondecreasing n rest
  end.

(** What [validateERC1155] asks of a metadata record. *)
Definition well_formed_metadata (input : ERC1155Input) : Prop :=
  Js.typeof (nft_name input) = "string"
  /\ Js.typeof (description input) = "string"
  /\ (exists b, image input = IsBlob b)
  /\ (Js.typeof (decimals input) = "undefined"
      \/ Js.typeof (decimals input) = "number").

(** The configuration the client builds from parsed credentials. *)
Definition token_config (creds : list string) (endpoint_ : string)
    (maxAttempts_ : option nat) : S3ClientConfig :=
  {| s3_credentials :=
       Some {| accessKeyId := Js.or_string (creds !! 0%nat) "";
               secretAccessKey := Js.or_string (creds !! 1%nat) "" |};
     s3_endpoint := Some endpoint_;
     maxAttempts := maxAttempts_;
     region := Some "us-east-1";
     forcePathStyle := Some true |}.

(** * Runs on concrete inputs *)

Module Scenario.

Import Reference.

Definition hello_world : Blob :=
  {| bytes := bytes_of_string "hello world"; type := "text/plain" |}.

(** The same bytes under another MIME type. *)
Definition hello_world_octets : Blob :=
  {| bytes := bytes_of_string "hello world"; type := "application/octet-stream" |}.

Definition empty_blob : Blob := {| bytes := []; type := "text/plain" |}.

Definition empty_file : File := {| name := "empty.txt"; file_blob := empty_blob |}.

Definition hello_file : File := {| name := "hello.txt"; file_blob := hello_world |}.

Definition hello_file_octets : File :=
  {| name := "hello.txt"; file_blob := hello_world_octets |}.

(** The archive of [hello_world]: 17 bytes in two chunks. *)
Definition hello_car : Car :=
  match fst (encodeBlob hello_world None initial_world) with
  | Return packed => car packed
  | Throw _ => []
  end.

(** Two accounts, each with its own bucket. *)
Definition alice : Service :=
  {| endpoint := None;
     token := Some (TokenArray ["AKIA-ALICE"; "secret-a"; "bucket-a"]);
     s3config := None;
     svc_bucket := None |}.

Definition bob : Service :=
  {| endpoint := None;
     token := Some (TokenArray ["AKIA-BOB"; "secret-b"; "bucket-b"]);
     s3config := None;
     svc_bucket := None |}.

Definition alice_config : S3ClientConfig :=
  {| s3_credentials :=
       Some {| accessKeyId := "AKIA-ALICE"; secretAccessKey := "secret-a" |};
     s3_endpoint := Some DEFAULT_ENDPOINT;
     maxAttempts := Some MAX_STORE_RETRIES;
     region := Some "us-east-1";
     forcePathStyle := Some true |}.

(** The world once a call for [alice] has been configured. *)
Definition alice_world : World :=
  {| statics := {| this_token := Some ["AKIA-ALICE"; "secret-a"; "bucket-a"];
                   this_bucket := Some "bucket-a" |};
     blockstores := [];
     trace := [] |}.

Definition with_callbacks : CarStorerOptions :=
  {| onStoredChunk := true; onComplete := true; maxRetries := None |}.

Definition remote_answer : HeadObjectOutput :=
  {| Metadata := Some {[ "cid" := "QmRemote" ]};
     ContentLength := Js.Number 17;
     LastModified := Some "2022-06-01T12:00:00.000Z" |}.

Definition untagged_answer : HeadObjectOutput :=
  {| Metadata := Some {[ "import" := "car" ]};
     ContentLength := Js.Number 17;
     LastModified := Some "2022-06-01T12:00:00.000Z" |}.

(** The body stream is read to its end and the single part reports
    all 17 bytes. *)
Definition whole_archive_run : UploadRun :=
  {| delivered := [Stream Resume; Stream Data; Stream Data;
                   HttpUploadProgress (Js.Number 17);
                   Stream End_; Stream Close];
     done := None |}.

(** Three parts whose progress is reported out of order. *)
Definition out_of_order_run : UploadRun :=
  {| delivered := [HttpUploadProgress (Js.Number 12);
                   HttpUploadProgress (Js.Number 6);
                   HttpUploadProgress (Js.Number 17)];
     done := None |}.

(** A call of [storeCar] for [alice], with a [status] lookup for
    [bob] made while the upload is pending. *)
Definition interleaved : M (string * StatusResult) :=
  s3config_ <- configure alice (Some (Js.or_nat (maxRetries with_callbacks) MAX_STORE_RETRIES)) ;;
  up <- storeCar_begin s3config_ hello_car "hello" with_callbacks ;;
  bobs <- status bob "QmOther" None (Return remote_answer) ;;
  storeCar_transfer up with_callbacks whole_archive_run ;;;
  stored <- storeCar_finish up "hello" (Return remote_answer) ;;
  ret (stored, bobs).

(** A client configuration passed as [s3config], with a bucket
    option beside it. *)
Definition carol_options : Service :=
  {| endpoint := None;
     token := None;
     s3config := Some alice_config;
     svc_bucket := Some "bucket-c" |}.

(** The constructor options for [alice], with a bucket that overrides
    the one in her token. *)
Definition alice_options : Service :=
  {| endpoint := Some "http://localhost:8080/";
     token := Some (TokenString "QUtJQS1BTElDRTpzZWNyZXQtYTpidWNrZXQtYQ==");
     s3config := None;
     svc_bucket := Some "bucket-override" |}.

(** The second part of an upload fails after the retries. *)
Definition failing_run : UploadRun :=
  {| delivered := [Stream Resume; Stream Data;
                   HttpUploadProgress (Js.Number 5)];
     done := Some (Js.Rejected "NetworkingError") |}.


(** The description is missing, and the decimals are a string. *)
Definition broken_nft : ERC1155Input :=
  {| nft_name := Js.Str "cat";
     description := Js.Undefined;
     image := Plain Js.Null;
     decimals := Js.Str "18";
     properties := [] |}.

(** The client the constructor makes from [alice_options]. *)
Definition alice_client : Service :=
  match fst (constructor alice_options initial_world) with
  | Return client_ => client_
  | Throw _ => alice_options
  end.

(** What [encodeBlob] gives for [hello_world] in the first blockstore
    of a fresh world. *)
Definition hello_packed : PackedCar :=
  match fst (encodeBlob hello_world (Some 0%nat) (snd (new_Blockstore initial_world))) with
  | Return packed => packed
  | Throw _ => {| cid := cid_of []; carReader := {| reader_version := 1;
                                                    reader_roots := [];
                                                    reader_blockstore := 0 |};
                  car := [] |}
  end.



End Scenario.

(** * Properties *)

(** ** Credentials *)

Example parseToken_array :
  parseToken (TokenArray ["AK"; "SK"; "my-bucket"])
  = Return {| credentials := ["AK"; "SK"; "my-bucket"]; bucket := "my-bucket" |}.
Proof. reflexivity. Qed.

(* "QUs6U0s6bXktYnVja2V0" is base64 for "AK:SK:my-bucket" *)
Example parseToken_string :
  parseToken (TokenString "QUs6U0s6bXktYnVja2V0")
  = Return {| credentials := ["AK"; "SK"; "my-bucket"]; bucket := "my-bucket" |}.
Proof. vm_compute. reflexivity. Qed.

(* "QUs6U0s=" is base64 for "AK:SK" *)
Example parseToken_string_no_bucket :
  parseToken (TokenString "QUs6U0s=") = Throw (Js.Error "No Bucket Found").
Proof. vm_compute. reflexivity. Qed.

Example parseToken_string_empty :
  parseToken (TokenString "") = Throw (Js.Error "Invalid Secret Key").
Proof. vm_compute. reflexivity. Qed.

Lemma lookup_below {A} (l : list A) (i j : nat) :
  (i <= j)%nat -> is_Some (l !! j) -> is_Some (l !! i).
Proof.
  intros Hle Hj. apply lookup_lt_is_Some. apply lookup_lt_is_Some in Hj. lia.
Qed.

Lemma split_go_nonempty sep s cur : is_Some (Js.split_go sep s cur !! 0%nat).
Proof.
  revert cur. induction s as [|c rest IH]; intros cur; simpl.
  - eauto.
  - destruct (Ascii.eqb c sep); simpl; eauto.
Qed.

(** The string form always has a first part: `Invalid Access Key` is
    never raised. *)
Lemma parseToken_never_invalid_access_key t :
  parseToken t <> Throw (Js.Error "Invalid Access Key").
Proof.
  destruct t as [parts|encoded]; simpl.
  - destruct (parts !! 2%nat); discriminate.
  - destruct (split_go_nonempty ":"%char
                (Buffer.toString_ascii (Buffer.from_base64 encoded)) EmptyString)
      as [x Hx].
    unfold Js.split. rewrite Hx.
    repeat (match goal with |- context [match ?o with _ => _ end] => destruct o end;
            try discriminate).
Qed.

Lemma parseToken_cases t :
  match parseToken t with
  | Return r =>
      credentials r = fields t
      /\ recoverable t 0 /\ recoverable t 1
      /\ fields t !! 2%nat = Some (bucket r)
  | Throw e =>
      exists i, (i < 3)%nat /\ e = Js.Error (field_error i) /\ ~ recoverable t i
  end.
Proof.
  unfold recoverable.
  destruct t as [parts|encoded]; simpl.
  - destruct (parts !! 2%nat) as [b|] eqn:H2; simpl.
    + repeat split; try (apply (lookup_below parts _ 2); [lia | eauto]).
    + exists 2%nat. repeat split; [lia | rewrite H2; intros [? ?]; discriminate].
  - set (token := Js.split ":"%char _).
    destruct (token !! 0%nat) as [a|] eqn:H0.
    2:{ exists 0%nat. repeat split; [lia | rewrite H0; intros [? ?]; discriminate]. }
    destruct (token !! 1%nat) as [s|] eqn:H1.
    2:{ exists 1%nat. repeat split; [lia | rewrite H1; intros [? ?]; discriminate]. }
    destruct (token !! 2%nat) as [b|] eqn:H2; simpl.
    + repeat split; eauto.
    + exists 2%nat. repeat split; [lia | rewrite H2; intros [? ?]; discriminate].
Qed.

Lemma split_go_length sep s cur :
  length (Js.split_go sep s cur) = S (occurrences sep s).
Proof.
  revert cur. induction s as [|c rest IH]; intros cur; [reflexivity|].
  cbn [Js.split_go occurrences]. destruct (Ascii.eqb c sep).
  - cbn [length]. by rewrite IH.
  - apply IH.
Qed.

(** C5, as stated, fails: an array that holds an access key and
    nothing else has no secret key, yet the error is `No Bucket
    Found`, not `Invalid Secret Key`; the same text as a string token
    ("QUs=" is base64 for "AK") does give `Invalid Secret Key`. An
    empty array has no access key and gives `No Bucket Found` too. *)
Lemma array_token_without_secret_reports_bucket :
  length ["AK"] = 1%nat
  /\ parseToken (TokenArray ["AK"]) = Throw (Js.Error "No Bucket Found")
  /\ parseToken (TokenArray ["AK"]) <> Throw (Js.Error "Invalid Secret Key")
  /\ parseToken (TokenString "QUs=") = Throw (Js.Error "Invalid Secret Key")
  /\ parseToken (TokenArray []) = Throw (Js.Error "No Bucket Found")
  /\ parseToken (TokenArray []) <> Throw (Js.Error "Invalid Access Key").
Proof. vm_compute. repeat split; discriminate. Qed.

(** C5 (amended). What [parseToken] does with a token is decided by
    its shape. An array with fewer than three elements fails with `No
    Bucket Found`, whichever field is missing; with three or more it
    is accepted, the third being the bucket. A string fails with
    `Invalid Secret Key` when the text it decodes to has no colon and
    with `No Bucket Found` when it has one; with two or more it is
    accepted, its first three parts being access key, secret key and
    bucket. `Invalid Access Key` is never raised. When [parseToken]
    fails, the constructor and the static operations called with that
    token fail with the same error and leave the world as it was:
    nothing was sent. *)
Theorem parseToken_errors_by_shape (t : TokenInput) :
  match t with
  | TokenArray parts =>
      match parts with
      | ak :: sk :: b :: _ =>
          parseToken t = Return {| credentials := parts; bucket := b |}
      | _ => parseToken t = Throw (Js.Error "No Bucket Found")
      end
  | TokenString encoded =>
      match occurrences ":"%char (decoded encoded) with
      | 0 => parseToken t = Throw (Js.Error "Invalid Secret Key")
      | 1 => parseToken t = Throw (Js.Error "No Bucket Found")
      | S (S _) =>
          exists ak sk b rest,
            Js.split ":"%char (decoded encoded) = ak :: sk :: b :: rest
            /\ parseToken t
               = Return {| credentials := ak :: sk :: b :: rest; bucket := b |}
      end
  end
  /\ parseToken t <> Throw (Js.Error "Invalid Access Key")
  /\ match parseToken t with
     | Return r =>
         forall ep b cfg w,
           exists client,
             constructor {| endpoint := ep; token := Some t;
                            s3config := cfg; svc_bucket := b |} w
             = (Return client, w)
     | Throw e =>
         forall ep b cfg w,
           constructor {| endpoint := ep; token := Some t;
                          s3config := cfg; svc_bucket := b |} w
           = (Throw e, w)
           /\ (let svc := {| endpoint := ep; token := Some t;
                             s3config := None; svc_bucket := b |} in
               forall car key options run head cid_ objectName answer,
                 storeCar svc car key options run head w = (Throw e, w)
                 /\ status svc cid_ objectName head w = (Throw e, w)
                 /\ delete svc cid_ objectName answer w = (Throw e, w))
     end.
Proof.
  split; [|split].
  - destruct t as [parts|encoded].
    + destruct parts as [|ak [|sk [|b rest]]]; reflexivity.
    + pose proof (split_go_length ":"%char (decoded encoded) EmptyString) as Hlen.
      fold (Js.split ":"%char (decoded encoded)) in Hlen.
      unfold parseToken. fold (decoded encoded).
      destruct (occurrences ":"%char (decoded encoded)) as [|[|more]];
        destruct (Js.split ":"%char (decoded encoded)) as [|ak [|sk [|b rest]]];
        try discriminate Hlen; try reflexivity.
      exists ak, sk, b, rest. split; reflexivity.
  - apply parseToken_never_invalid_access_key.
  - destruct (parseToken t) as [r|e] eqn:Hp.
    + intros ep b cfg w. unfold constructor. simpl. rewrite Hp.
      destruct cfg; simpl; eauto.
    + intros ep b cfg w. split.
      * unfold constructor. simpl. rewrite Hp. destruct cfg; reflexivity.
      * intros car0 key options run head cid_ objectName answer.
        unfold storeCar, status, delete, configure, bind. simpl.
        rewrite Hp. simpl. auto.
Qed.

(** Every missing field is reported. *)
Corollary parseToken_missing_field_rejected t i :
  (i < 3)%nat -> ~ recoverable t i ->
  exists j, parseToken t = Throw (Js.Error (field_error j)) /\ ~ recoverable t j.
Proof.
  intros Hi Hmiss. pose proof (parseToken_cases t) as Hc.
  destruct (parseToken t) as [r|e].
  - destruct Hc as (_ & H0 & H1 & H2).
    exfalso. apply Hmiss.
    destruct i as [|[|[|i]]]; try lia; auto.
    unfold recoverable. rewrite H2. eauto.
  - destruct Hc as (j & _ & -> & Hj). eauto.
Qed.

(** ** Reading the trace *)

Arguments emit : simpl never.
Arguments log : simpl never.

Lemma log_nil w : log w [] = w.
Proof. destruct w. unfold log. simpl. by rewrite app_nil_r. Qed.

Lemma log_log w a b : log (log w a) b = log w (a ++ b)%list.
Proof. unfold log. simpl. by rewrite app_assoc. Qed.

Lemma emit_log ev w : emit ev w = (Return tt, log w [ev]).
Proof. reflexivity. Qed.

Lemma stored_chunks_app a b :
  stored_chunks (a ++ b) = (stored_chunks a ++ stored_chunks b)%list.
Proof. apply flat_map_app. Qed.

Lemma commands_app a b : commands (a ++ b) = (commands a ++ commands b)%list.
Proof. apply flat_map_app. Qed.

Lemma completions_app a b : completions (a ++ b) = (completions a + completions b)%nat.
Proof. unfold completions. by rewrite List.filter_app, length_app. Qed.

(** ** The progress listener over a run *)

Lemma typeof_number v : Js.typeof v = "number" -> exists n, v = Js.Number n.
Proof. destruct v; simpl; try discriminate. eauto. Qed.

Lemma emit_to_readable ls e w :
  finish_only ls -> emit_to ls (event_name e) w = (Return tt, w).
Proof.
  induction 1 as [|[n l] rest Hn _ IH]; simpl; [reflexivity|].
  simpl in Hn. subst n. unfold bind.
  replace (String.eqb "finish" (event_name e)) with false by (by destruct e).
  simpl. exact IH.
Qed.

Lemma last_cons_default {A} (l : list A) (x d d' : A) :
  List.last (x :: l) d = List.last (x :: l) d'.
Proof.
  revert x. induction l as [|y l IH]; intros x; [reflexivity|].
  change (List.last (y :: l) d = List.last (y :: l) d'). apply IH.
Qed.

Lemma deliver_numeric up options evs st w :
  finish_only (body_listeners up) -> numeric evs ->
  exists st',
    deliver up options evs st w
    = (Return st', log w (chunk_calls options (storedBytes st) evs))
    /\ storedBytes st' = List.last (loaded_values evs) (storedBytes st).
Proof.
  intros Hls Hnum. revert st w.
  induction Hnum as [|ev rest Hev _ IH]; intros st w.
  - exists st. unfold chunk_calls. simpl.
    destruct (onStoredChunk options); simpl; by rewrite log_nil.
  - destruct ev as [e|v].
    + cbn [deliver]. unfold bind. rewrite emit_to_readable by done.
      destruct (IH st w) as (st' & -> & Hst). eauto.
    + destruct (typeof_number v Hev) as [n ->].
      cbn [deliver on_httpUploadProgress loaded_values].
      unfold bind, chunk_calls in *. cbn [loaded_values deltas].
      set (st1 := {| storedBytes := n; progressBytes := (n - storedBytes st)%Q |}).
      assert (Hlast : forall st', storedBytes st' = List.last (loaded_values rest) n ->
                storedBytes st' = List.last (n :: loaded_values rest) (storedBytes st)).
      { intros st' ->. destruct (loaded_values rest) as [|q l]; [reflexivity|].
        change (List.last (q :: l) n = List.last (q :: l) (storedBytes st)).
        apply last_cons_default. }
      destruct (onStoredChunk options) eqn:Hcb.
      * rewrite emit_log. unfold ret at 1.
        destruct (IH st1 (log w [OnStoredChunk (n - storedBytes st)%Q]))
          as (st' & -> & Hst).
        exists st'. rewrite log_log. split; [reflexivity|]. by apply Hlast.
      * unfold ret at 1 2.
        destruct (IH st1 w) as (st' & -> & Hst).
        exists st'. split; [reflexivity|]. by apply Hlast.
Qed.

Lemma storeCar_begin_listeners cfg car key options w up w' :
  storeCar_begin cfg car key options w = (Return up, w') ->
  finish_only (body_listeners up)
  /\ client up = cfg
  /\ w' = log w [Sent cfg (PutUpload (this_bucket (statics w)) key {[ "import" := "car" ]})].
Proof.
  unfold storeCar_begin, bind, get_this_bucket. rewrite emit_log. unfold ret.
  intros [= <- <-]. simpl. split; [|done].
  unfold finish_only. destruct (onComplete options); repeat constructor.
Qed.

(** ** The identifier [storeCar] returns *)

Lemma storeCar_finish_answer up key h w :
  storeCar_finish up key (Return h) w
  = (match remote_cid h with
     | Some c => Return c
     | None => Throw (Js.Error "No CID Returned from Remote")
     end,
     log w [Sent (client up) (HeadObjectCommand (this_bucket (statics w)) key)]).
Proof.
  unfold storeCar_finish, bind, get_this_bucket, remote_cid.
  rewrite emit_log. cbn [settle]. unfold ret at 1.
  destruct (Metadata h) as [m|]; [destruct (m !! "cid")|]; reflexivity.
Qed.

(** A run in which every tick is a number and [done()] resolves. *)
Lemma storeCar_numeric_run
    (svc : Service) (car : Car) (key : string) (options : CarStorerOptions)
    (evs : list UploadEvent) (h : HeadObjectOutput) (w w1 : World)
    (cfg : S3ClientConfig) :
  configure svc (Some (Js.or_nat (maxRetries options) MAX_STORE_RETRIES)) w
    = (Return cfg, w1) ->
  numeric evs ->
  storeCar svc car key options {| delivered := evs; done := None |} (Return h) w
  = (match remote_cid h with
     | Some c => Return c
     | None => Throw (Js.Error "No CID Returned from Remote")
     end,
     log w1 ([Sent cfg (PutUpload (this_bucket (statics w1)) key {[ "import" := "car" ]})]
             ++ chunk_calls options (1 # 100) evs
             ++ [Sent cfg (HeadObjectCommand (this_bucket (statics w1)) key)])).
Proof.
  intros Hcfg Hnum.
  unfold storeCar, bind. rewrite Hcfg.
  destruct (storeCar_begin cfg car key options w1) as [[up|e] wb] eqn:Hb.
  2:{ unfold storeCar_begin, bind, get_this_bucket in Hb.
      rewrite emit_log in Hb. discriminate. }
  destruct (storeCar_begin_listeners _ _ _ _ _ _ _ Hb) as (Hls & Hcl & ->).
  unfold storeCar_transfer, bind. cbn [delivered done].
  destruct (deliver_numeric up options evs initial_progress
              (log w1 [Sent cfg (PutUpload (this_bucket (statics w1)) key {[ "import" := "car" ]})])
              Hls Hnum) as (st' & -> & _).
  unfold ret at 1.
  rewrite storeCar_finish_answer, !log_log, Hcl. reflexivity.
Qed.

(** C4. When the configuration is valid and all parts of the upload
    succeed, [storeCar] sends a head request for the object key through
    the same client, as the last thing it does; it fails with
    `No CID Returned from Remote` when the answer carries no [cid] tag
    and otherwise returns that tag as it came, whatever the archive
    was. *)
Theorem storeCar_returns_remote_cid
    (svc : Service) (car : Car) (key : string) (options : CarStorerOptions)
    (run : UploadRun) (h : HeadObjectOutput) (w w1 : World) (cfg : S3ClientConfig) :
  configure svc (Some (Js.or_nat (maxRetries options) MAX_STORE_RETRIES)) w
    = (Return cfg, w1) ->
  numeric (delivered run) ->
  done run = None ->
  let Bucket := this_bucket (statics w1) in
  storeCar svc car key options run (Return h) w
  = (match remote_cid h with
     | Some c => Return c
     | None => Throw (Js.Error "No CID Returned from Remote")
     end,
     log w1 ([Sent cfg (PutUpload Bucket key {[ "import" := "car" ]})]
             ++ chunk_calls options (1 # 100) (delivered run)
             ++ [Sent cfg (HeadObjectCommand Bucket key)])).
Proof.
  intros Hcfg Hnum Hdone Bucket. destruct run as [evs settled].
  simpl in *. subst settled. by apply storeCar_numeric_run.
Qed.

(** ** [status] *)

(** C7. A status lookup with a valid configuration sends one head
    request, keyed by the object name or else the CID. If the answer
    lacks the [cid] tag, a numeric content length or the last-modified
    date, the call fails with one of the incomplete-record errors;
    otherwise it returns that cid, that size, no deals, and a pin with
    status 'pinned' created at the last-modified date. *)
Theorem status_normalized_record
    (svc : Service) (cid_ : string) (objectName : option string)
    (h : HeadObjectOutput) (w w1 : World) (cfg : S3ClientConfig) :
  configure svc (Some MAX_STORE_RETRIES) w = (Return cfg, w1) ->
  exists result,
    status svc cid_ objectName (Return h) w
    = (result,
       log w1 [Sent cfg (HeadObjectCommand (this_bucket (statics w1))
                           (Js.or_string objectName cid_))])
    /\ match complete_record h with
       | Some (c, n, d) =>
           result = Return {| status_cid := c;
                              status_size := n;
                              deals := [];
                              pin := {| pin_cid := c;
                                        pin_name := c;
                                        pin_status := "pinned";
                                        pin_created := d |};
                              created := d |}
       | None =>
           exists msg, result = Throw (Js.Error msg)
                       /\ In msg incomplete_record_errors
       end.
Proof.
  intros Hcfg. unfold status, bind. rewrite Hcfg.
  unfold get_this_bucket. rewrite emit_log. cbn [settle]. unfold ret at 1.
  unfold complete_record, remote_cid, incomplete_record_errors.
  destruct (Metadata h) as [m|].
  2:{ eexists; split; [reflexivity|]. simpl. eauto. }
  destruct (m !! "cid") as [c|].
  2:{ eexists; split; [reflexivity|]. simpl. eauto. }
  destruct (ContentLength h) as [| |b|n|s|];
    try (eexists; split; [reflexivity|]; simpl; eauto 6).
  destruct (LastModified h) as [d|];
    eexists; (split; [reflexivity|]); simpl; eauto 6.
Qed.

(** ** Progress callbacks *)

(** The differences telescope: they add up to the last value minus the
    value the counter started from. *)
Lemma deltas_sum (prev : Q) (ns : list Q) :
  (Qsum (deltas prev ns) == List.last ns prev - prev)%Q.
Proof.
  revert prev. induction ns as [|n rest IH]; intros prev.
  - simpl. ring.
  - cbn [deltas Qsum fold_right]. fold (Qsum (deltas n rest)). rewrite IH.
    destruct rest as [|m rest'].
    + simpl. ring.
    + rewrite (last_cons_default rest' m n prev).
      change (List.last (n :: m :: rest') prev) with (List.last (m :: rest') prev).
      ring.
Qed.

Lemma deliver_app up options a b st w :
  deliver up options (a ++ b) st w
  = match deliver up options a st w with
    | (Return st', w') => deliver up options b st' w'
    | (Throw e, w') => (Throw e, w')
    end.
Proof.
  revert st w. induction a as [|ev a IH]; intros st w; [reflexivity|].
  destruct ev as [e|v]; cbn [app deliver]; unfold bind.
  - destruct (emit_to (body_listeners up) (event_name e) w) as [[[]|x] w']; auto.
  - destruct (on_httpUploadProgress options v st w) as [[st'|x] w']; auto.
Qed.

Lemma on_httpUploadProgress_non_numeric options v st w :
  Js.typeof v <> "number" ->
  on_httpUploadProgress options v st w
  = (Throw (Js.Error "Expected Number for Loaded Progress"), w).
Proof. destruct v; simpl; intros H; try reflexivity. by destruct H. Qed.

(** C2 (amended). A tick whose [loaded] is not a number makes the
    progress listener throw `Expected Number for Loaded Progress`
    without calling the callback with it; what the upload does with
    that throw is left to the transport. A number is never rejected,
    smaller than the one before or not: the listener calls the
    callback with the difference, and a run whose ticks are all
    numbers goes on to its head request. *)
Theorem progress_listener_rejects_only_non_numbers
    (svc : Service) (car : Car) (key : string) (options : CarStorerOptions)
    (evs : list UploadEvent) (v : Js.Value) (h : HeadObjectOutput)
    (w w1 : World) (cfg : S3ClientConfig) :
  configure svc (Some (Js.or_nat (maxRetries options) MAX_STORE_RETRIES)) w
    = (Return cfg, w1) ->
  numeric evs ->
  Js.typeof v <> "number" ->
  (forall st u,
     on_httpUploadProgress options v st u
     = (Throw (Js.Error "Expected Number for Loaded Progress"), u))
  /\ (forall n st u,
        on_httpUploadProgress options (Js.Number n) st u
        = (Return {| storedBytes := n; progressBytes := (n - storedBytes st)%Q |},
           log u (if onStoredChunk options
                  then [OnStoredChunk (n - storedBytes st)%Q]
                  else [])))
  /\ exists result,
       storeCar svc car key options {| delivered := evs; done := None |} (Return h) w
       = (result,
          log w1 ([Sent cfg (PutUpload (this_bucket (statics w1)) key {[ "import" := "car" ]})]
                  ++ chunk_calls options (1 # 100) evs
                  ++ [Sent cfg (HeadObjectCommand (this_bucket (statics w1)) key)]))
       /\ result <> Throw (Js.Error "Expected Number for Loaded Progress").
Proof.
  intros Hcfg Hnum Hv. split; [|split].
  - intros st u. by apply on_httpUploadProgress_non_numeric.
  - intros n st u. cbn [on_httpUploadProgress]. unfold bind.
    destruct (onStoredChunk options).
    + rewrite emit_log. reflexivity.
    + unfold ret. by rewrite log_nil.
  - eexists. split; [by apply storeCar_numeric_run|].
    destruct (remote_cid h); discriminate.
Qed.

(** ** The completion callback *)

Lemma configure_frame svc m w r w1 :
  configure svc m w = (r, w1) ->
  trace w1 = trace w /\ blockstores w1 = blockstores w.
Proof.
  unfold configure, bind.
  destruct (s3config svc) as [c|]; [|destruct (token svc) as [t|]].
  - intros [= <- <-]. auto.
  - destruct (parseToken t) as [p|e]; cbn [settle]; intros [= <- <-]; auto.
  - intros [= <- <-]. auto.
Qed.

Ltac count_completions :=
  unfold log; cbn [trace snd]; rewrite ?completions_app;
  unfold completions; simpl; lia.

Lemma deliver_completions up options evs st w :
  finish_only (body_listeners up) ->
  completions (trace (snd (deliver up options evs st w))) = completions (trace w).
Proof.
  intros Hls. revert st w. induction evs as [|ev evs IH]; intros st w; [reflexivity|].
  destruct ev as [e|v]; cbn [deliver]; unfold bind.
  - rewrite emit_to_readable by done. apply IH.
  - destruct v; try reflexivity.
    cbn [on_httpUploadProgress]. unfold bind.
    destruct (onStoredChunk options).
    + rewrite emit_log. unfold ret at 1. rewrite IH. count_completions.
    + unfold ret at 1 2. apply IH.
Qed.

(** C6. No run of [storeCar] calls the completion callback: it is
    registered under ['finish'] on the readable body stream, which
    emits no such event, so the trace gains no [OnComplete], whatever
    the stream and the upload do and whether or not all parts
    succeed. *)
Theorem storeCar_never_calls_onComplete
    (svc : Service) (car : Car) (key : string) (options : CarStorerOptions)
    (run : UploadRun) (head : Outcome HeadObjectOutput) (w : World) :
  completions (trace (snd (storeCar svc car key options run head w)))
  = completions (trace w).
Proof.
  unfold storeCar, bind.
  destruct (configure svc _ w) as [[cfg|e] w1] eqn:Hcfg;
    destruct (configure_frame _ _ _ _ _ Hcfg) as [Htr _]; cbn [snd];
    [|by rewrite Htr].
  destruct (storeCar_begin cfg car key options w1) as [[up|e] wb] eqn:Hb.
  2:{ unfold storeCar_begin, bind, get_this_bucket in Hb.
      rewrite emit_log in Hb. discriminate. }
  destruct (storeCar_begin_listeners _ _ _ _ _ _ _ Hb) as (Hls & Hcl & ->).
  unfold storeCar_transfer, bind.
  pose proof (deliver_completions up options (delivered run) initial_progress
                (log w1 [Sent cfg (PutUpload (this_bucket (statics w1)) key {[ "import" := "car" ]})])
                Hls) as Hd.
  destruct (deliver up options (delivered run) initial_progress _) as [[st|e] wd];
    cbn [snd] in Hd.
  2:{ cbn [snd]. rewrite Hd, <- Htr. count_completions. }
  assert (Hwd : completions (trace wd) = completions (trace w)).
  { rewrite Hd, <- Htr. count_completions. }
  destruct (done run) as [e|]; [by cbn|].
  unfold ret at 1.
  unfold storeCar_finish, bind, get_this_bucket. rewrite emit_log.
  destruct head as [hd|e]; cbn [settle].
  - unfold ret at 1.
    destruct (Metadata hd) as [md|]; [destruct (md !! "cid")|];
      unfold ret, throw; rewrite <- Hwd; count_completions.
  - unfold throw at 1. rewrite <- Hwd. count_completions.
Qed.

(** ** Inverting promises *)

Lemma bind_return_inv {A B} (m : M A) (k : A -> M B) w b w' :
  bind m k w = (Return b, w') ->
  exists a w1, m w = (Return a, w1) /\ k a w1 = (Return b, w').
Proof.
  unfold bind. destruct (m w) as [[a|e] w1]; [eauto | discriminate].
Qed.

Lemma try_finally_return_inv {A} (body : M A) (cleanup : M unit) w a w' :
  try_finally body cleanup w = (Return a, w') ->
  exists w1, body w = (Return a, w1) /\ cleanup w1 = (Return tt, w').
Proof.
  unfold try_finally. destruct (body w) as [r w1].
  destruct (cleanup w1) as [[[]|e] w2] eqn:Hc; [|discriminate].
  intros [= -> ->]. eauto.
Qed.

Lemma storeCar_finish_return_inv up key head w s w' :
  storeCar_finish up key head w = (Return s, w') ->
  exists h, head = Return h /\ remote_cid h = Some s.
Proof.
  destruct head as [h|e].
  - rewrite storeCar_finish_answer. intros [= Hr _]. exists h. split; [done|].
    destruct (remote_cid h); [congruence | discriminate].
  - unfold storeCar_finish, bind, get_this_bucket. rewrite emit_log. discriminate.
Qed.

Lemma storeCar_return_inv svc car key options run head w s w' :
  storeCar svc car key options run head w = (Return s, w') ->
  exists h, head = Return h /\ remote_cid h = Some s.
Proof.
  unfold storeCar. intros H.
  apply bind_return_inv in H as (cfg & w1 & _ & H).
  apply bind_return_inv in H as (up & w2 & _ & H).
  apply bind_return_inv in H as ([] & w3 & _ & H).
  by apply storeCar_finish_return_inv in H.
Qed.

(** ** Encoding *)

Section EncodeProperties.

Context `{deps : Dependencies}.

(** [packCar] after its first two steps: the store it works on and
    what that store holds. *)
Lemma packCar_unfold input blockstore wrap w :
  allocated blockstore w ->
  exists id w0,
    (forall x, store_contents (Some id) (snd (write_blockstore id x w0)) = x)
    /\ trace w0 = trace w /\ statics w0 = statics w
    /\ packCar input blockstore wrap w
       = let '(packed, after) :=
           pack input {| wrapWithDirectory := wrap; rawLeaves := false; cidVersion := 0 |}
                (store_contents blockstore w) in
         let w1 := snd (write_blockstore id after w0) in
         match packed with
         | Return p =>
             (Return {| cid := root p;
                        carReader := {| reader_version := 1;
                                        reader_roots := [root p];
                                        reader_blockstore := id |};
                        car := out p |}, w1)
         | Throw e => (Throw e, w1)
         end.
Proof.
  intros Halloc. destruct blockstore as [id|]; simpl in Halloc.
  - exists id, w. split; [|split; [done|split; [done|]]].
    + intros x. unfold write_blockstore, store_contents. cbn [snd blockstores].
      destruct (lookup_lt_is_Some_2 _ _ Halloc) as [bs Hbs]. rewrite Hbs.
      rewrite list_lookup_insert_eq by done. reflexivity.
    + unfold packCar, bind, read_blockstore, ret, store_contents. cbn.
      destruct (pack input _ _) as [[p|e] after]; reflexivity.
  - exists (length (blockstores w)), (snd (new_Blockstore w)).
    split; [|split; [done|split; [done|]]].
    + intros x. unfold write_blockstore, store_contents, new_Blockstore.
      cbn [snd blockstores].
      rewrite list_lookup_middle by done.
      rewrite list_lookup_insert_eq by (rewrite length_app; simpl; lia).
      reflexivity.
    + unfold packCar, bind, read_blockstore, store_contents.
      cbn [new_Blockstore fst snd blockstores].
      rewrite list_lookup_middle by done. cbn [blocks].
      destruct (pack input _ _) as [[p|e] after]; reflexivity.
Qed.

Lemma packCar_frame input blockstore wrap w :
  trace (snd (packCar input blockstore wrap w)) = trace w
  /\ statics (snd (packCar input blockstore wrap w)) = statics w.
Proof.
  unfold packCar, bind.
  destruct blockstore as [id|]; cbn [ret new_Blockstore read_blockstore fst snd];
    destruct (pack input _ _) as [[p|e] after]; done.
Qed.

Lemma packCar_deterministic input wrap bs1 bs2 w1 w2 :
  allocated bs1 w1 -> allocated bs2 w2 ->
  store_contents bs1 w1 = store_contents bs2 w2 ->
  same_packing (packCar input bs1 wrap w1) (packCar input bs2 wrap w2).
Proof.
  intros Ha1 Ha2 Heq.
  destruct (packCar_unfold input bs1 wrap w1 Ha1) as (id1 & u1 & Hw1 & _ & _ & ->).
  destruct (packCar_unfold input bs2 wrap w2 Ha2) as (id2 & u2 & Hw2 & _ & _ & ->).
  rewrite Heq.
  destruct (pack input _ _) as [[p|e] after]; unfold same_packing.
  - unfold packed_blocks. cbn [cid car carReader reader_blockstore].
    by rewrite Hw1, Hw2.
  - reflexivity.
Qed.

Lemma directory_input_candidates files :
  map (fun file => toImportCandidate (name file) (file_blob file)) files
  = map (fun e => {| path := fst e; content := snd e |}) (directory_input files).
Proof. unfold directory_input. rewrite map_map. reflexivity. Qed.

Lemma total_size_input files :
  total_size files
  = fold_left (fun sum e => (sum + length (snd e))%nat) (directory_input files) 0%nat.
Proof.
  unfold total_size, directory_input. generalize 0%nat.
  induction files as [|f files IH]; intros n; [reflexivity|]. simpl. apply IH.
Qed.

(** What the encoders hand to the packer: the bytes of a blob under
    the path "blob", or the names and bytes of the files, with
    [rawLeaves: false] and [cidVersion: 0], over the contents of the
    blockstore. The MIME types of the blobs, the static properties of
    the class and the earlier trace are not handed over, so two calls
    that agree on the former get the same answer from the packer. How
    the packer computes it is not part of this statement. *)
Theorem encode_deterministic
    (b1 b2 : Blob) (files1 files2 : list File)
    (bs1 bs2 : option nat) (w1 w2 : World) :
  bytes b1 = bytes b2 ->
  directory_input files1 = directory_input files2 ->
  allocated bs1 w1 -> allocated bs2 w2 ->
  store_contents bs1 w1 = store_contents bs2 w2 ->
  same_packing (encodeBlob b1 bs1 w1) (encodeBlob b2 bs2 w2)
  /\ same_packing (encodeDirectory files1 bs1 w1) (encodeDirectory files2 bs2 w2).
Proof.
  intros Hb Hf Ha1 Ha2 Hs. split.
  - unfold encodeBlob, size, toImportCandidate. rewrite Hb.
    destruct (Nat.eqb (length (bytes b2)) 0); [reflexivity|].
    by apply packCar_deterministic.
  - unfold encodeDirectory, bind.
    rewrite !directory_input_candidates, !total_size_input, Hf.
    pose proof (packCar_deterministic
                  (map (fun e => {| path := fst e; content := snd e |})
                       (directory_input files2)) true bs1 bs2 w1 w2 Ha1 Ha2 Hs) as Hp.
    destruct (packCar _ bs1 true w1) as [[p1|e1] u1];
      destruct (packCar _ bs2 true w2) as [[p2|e2] u2]; try done.
    destruct (Nat.eqb _ 0); [reflexivity | exact Hp].
Qed.

Lemma close_fresh_blockstore w :
  close_blockstore (length (blockstores w)) (snd (new_Blockstore w))
  = (Return tt,
     {| statics := statics w;
        blockstores := (blockstores w ++ [{| blocks := []; closed := true |}])%list;
        trace := trace w |}).
Proof.
  unfold close_blockstore, new_Blockstore. cbn [snd blockstores statics trace].
  rewrite list_lookup_middle by done.
  rewrite insert_app_r_alt by lia. rewrite Nat.sub_diag. reflexivity.
Qed.

Lemma close_blockstore_frame id w :
  exists w', close_blockstore id w = (Return tt, w')
             /\ trace w' = trace w /\ statics w' = statics w.
Proof. eexists. split; [reflexivity|]. done. Qed.

Lemma encodeDirectory_empty files blockstore w :
  total_size files = 0%nat ->
  let packing :=
    packCar (map (fun file => toImportCandidate (name file) (file_blob file)) files)
            blockstore true w in
  exists e, encodeDirectory files blockstore w = (Throw e, snd packing)
            /\ (fst packing = Throw e
                \/ e = Js.Error "Total size of files should exceed 0, make sure to provide some content").
Proof.
  intros Hz packing. unfold encodeDirectory, bind. fold packing.
  destruct packing as [[p|e] w']; cbn [fst snd].
  - rewrite Hz. cbn. eauto.
  - eauto.
Qed.

(** C3 (amended). A blob of size zero makes [encodeBlob] fail at
    once: the world is as it was, no block written and nothing sent,
    and [storeBlob] fails with the same error having only made and
    closed its empty store. Files that sum to zero bytes make
    [encodeDirectory] fail too, and [storeDirectory] with it, before
    anything is sent; but the failure comes after [packCar] has run,
    so the world it leaves is the one the packer left, with the
    blocks it wrote. *)
Theorem empty_input_rejected_before_upload
    (blob : Blob) (files : list File) (blockstore : option nat) (w : World)
    (svc : Service) (objectName : option string)
    (run : UploadRun) (head : Outcome HeadObjectOutput) :
  size blob = 0%nat ->
  total_size files = 0%nat ->
  let empty_content := Js.Error "Content size is 0, make sure to provide some content" in
  let packing :=
    packCar (map (fun file => toImportCandidate (name file) (file_blob file)) files)
            blockstore true w in
  encodeBlob blob blockstore w = (Throw empty_content, w)
  /\ storeBlob svc blob objectName run head w
     = (Throw empty_content,
        {| statics := statics w;
           blockstores := (blockstores w ++ [{| blocks := []; closed := true |}])%list;
           trace := trace w |})
  /\ (exists e, encodeDirectory files blockstore w = (Throw e, snd packing)
                /\ trace (snd packing) = trace w)
  /\ (exists e w', storeDirectory svc files objectName run head w = (Throw e, w')
                   /\ trace w' = trace w).
Proof.
  intros Hb Hf empty_content packing.
  assert (He : forall bs u, encodeBlob blob bs u = (Throw empty_content, u)).
  { intros bs u. unfold encodeBlob. rewrite Hb. reflexivity. }
  split; [apply He|]. split; [|split].
  - unfold storeBlob, bind, try_finally.
    change (new_Blockstore w)
      with (Return (length (blockstores w)), snd (new_Blockstore w)).
    cbv beta iota. rewrite He, close_fresh_blockstore. reflexivity.
  - destruct (encodeDirectory_empty files blockstore w Hf) as (e & He' & _).
    exists e. split; [exact He'|]. apply packCar_frame.
  - unfold storeDirectory, bind, try_finally.
    change (new_Blockstore w)
      with (Return (length (blockstores w)), snd (new_Blockstore w)).
    cbv beta iota.
    destruct (encodeDirectory_empty files (Some (length (blockstores w)))
                (snd (new_Blockstore w)) Hf) as (e & -> & _).
    destruct (close_blockstore_frame (length (blockstores w))
                (snd (packCar
                        (map (fun file => toImportCandidate (name file) (file_blob file)) files)
                        (Some (length (blockstores w))) true (snd (new_Blockstore w)))))
      as (w' & -> & Htr & _).
    exists e, w'. split; [reflexivity|].
    rewrite Htr. by destruct (packCar_frame
      (map (fun file => toImportCandidate (name file) (file_blob file)) files)
      (Some (length (blockstores w))) true (snd (new_Blockstore w))) as [-> _].
Qed.

(** C10. A successful [storeBlob] returns the [cid] tag of the head
    answer; a successful [storeDirectory] returns the string of the
    root CID that [encodeDirectory] computed, although a [cid] tag
    came back there too. *)
Theorem store_operations_return_different_cids
    (svc : Service) (blob : Blob) (files : list File)
    (nameB nameD : option string) (runB runD : UploadRun)
    (headB headD : Outcome HeadObjectOutput)
    (wB wD wB' wD' : World) (sB sD : string) :
  storeBlob svc blob nameB runB headB wB = (Return sB, wB') ->
  storeDirectory svc files nameD runD headD wD = (Return sD, wD') ->
  (exists h, headB = Return h /\ remote_cid h = Some sB)
  /\ (exists packed w1,
        encodeDirectory files (Some (length (blockstores wD))) (snd (new_Blockstore wD))
        = (Return packed, w1)
        /\ sD = CID_toString (cid packed))
  /\ (exists h c, headD = Return h /\ remote_cid h = Some c).
Proof.
  intros HB HD. split; [|].
  - unfold storeBlob in HB.
    apply bind_return_inv in HB as (id & w0 & _ & HB).
    apply try_finally_return_inv in HB as (w1 & HB & _).
    apply bind_return_inv in HB as (packed & w2 & _ & HB).
    apply bind_return_inv in HB as (s & w3 & HB & Hret).
    injection Hret as -> _.
    by apply storeCar_return_inv in HB.
  - unfold storeDirectory in HD.
    apply bind_return_inv in HD as (id & w0 & Hnew & HD).
    injection Hnew as <- <-.
    apply bind_return_inv in HD as (s & w4 & HD & Hret).
    injection Hret as -> _.
    apply try_finally_return_inv in HD as (w1 & HD & _).
    apply bind_return_inv in HD as (packed & w2 & Henc & HD).
    apply bind_return_inv in HD as (s & w3 & HD & Hret).
    injection Hret as <- _.
    apply storeCar_return_inv in HD as (h & -> & Hh).
    split; eauto.
Qed.

End EncodeProperties.

Section Scenarios.

Import Reference Scenario.

Example hello_car_size : car_size hello_car = 17%nat.
Proof. reflexivity. Qed.

(** In exact arithmetic the values the callback was given add up to
    the last [loaded] minus the [0.01] the counter starts from. The
    program adds rounded doubles, for which this holds up to rounding
    only. *)
Lemma storeCar_progress_sum svc car key options evs h w w1 cfg :
  configure svc (Some (Js.or_nat (maxRetries options) MAX_STORE_RETRIES)) w
    = (Return cfg, w1) ->
  numeric evs -> onStoredChunk options = true ->
  let w2 := snd (storeCar svc car key options
                   {| delivered := evs; done := None |} (Return h) w) in
  exists calls,
    stored_chunks (trace w2) = (stored_chunks (trace w1) ++ calls)%list
    /\ (Qsum calls == List.last (loaded_values evs) (1 # 100) - (1 # 100))%Q.
Proof.
  intros Hcfg Hnum Hcb w2. subst w2.
  rewrite (storeCar_numeric_run _ _ _ _ _ _ _ _ _ Hcfg Hnum).
  exists (deltas (1 # 100) (loaded_values evs)). split; [|apply deltas_sum].
  unfold log, chunk_calls. cbn [snd trace]. rewrite Hcb.
  rewrite !stored_chunks_app. cbn [stored_chunks flat_map app].
  rewrite app_nil_r. f_equal.
  induction (deltas (1 # 100) (loaded_values evs)) as [|d ds IH]; [reflexivity|].
  change (d :: stored_chunks (map OnStoredChunk ds) = d :: ds). by rewrite IH.
Qed.

(** C1. The upload of the 17-byte archive of "hello world", its one
    part reporting [loaded = 17]: the call succeeds, the callback is
    called once, with 16.99, and the values add up to 16.99, not to
    the 17 bytes of the archive. *)
Theorem storeCar_progress_sum_misses_total :
  let '(result, w) :=
    storeCar alice hello_car "hello" with_callbacks whole_archive_run
             (Return remote_answer) initial_world in
  car_size hello_car = 17%nat
  /\ result = Return "QmRemote"
  /\ stored_chunks (trace w) = [1699 # 100]
  /\ ~ (Qsum (stored_chunks (trace w)) == inject_Z (Z.of_nat (car_size hello_car)))%Q.
Proof. vm_compute. repeat split. discriminate. Qed.

(** C2, as stated, fails: progress that goes 12, 6, 17 is not
    rejected. The call succeeds and the callback was given -6. *)
Lemma decreasing_progress_not_rejected :
  let '(result, w) :=
    storeCar alice hello_car "hello" with_callbacks out_of_order_run
             (Return remote_answer) initial_world in
  result = Return "QmRemote"
  /\ stored_chunks (trace w) = [1199 # 100; -6 # 1; 11 # 1]
  /\ Exists (fun v => v < 0)%Q (stored_chunks (trace w)).
Proof.
  vm_compute. repeat split.
  apply Exists_cons_tl, Exists_cons_hd. reflexivity.
Qed.

(** C3, as stated, fails for directories: one empty file makes
    [encodeDirectory] fail, but by then the store that was empty
    holds two blocks. *)
Lemma encodeDirectory_fails_after_blocks_written :
  let w0 := snd (new_Blockstore initial_world) in
  let '(result, w) := encodeDirectory [empty_file] (Some 0%nat) w0 in
  total_size [empty_file] = 0%nat
  /\ store_contents (Some 0%nat) w0 = []
  /\ result = Throw (Js.Error "Total size of files should exceed 0, make sure to provide some content")
  /\ length (store_contents (Some 0%nat) w) = 2%nat.
Proof. vm_compute. repeat split. Qed.

(** C8. While a [storeCar] for [alice] awaits its upload, a [status]
    lookup for [bob] assigns [this.bucket]; the head request of
    [alice]'s call then goes to [bob]'s bucket, though her upload
    went to her own. Run alone, the same call asks her bucket. *)
Theorem concurrent_calls_share_this_bucket :
  commands (trace (snd (interleaved initial_world)))
  = [PutUpload (Some "bucket-a") "hello" {[ "import" := "car" ]};
     HeadObjectCommand (Some "bucket-b") "QmOther";
     HeadObjectCommand (Some "bucket-b") "hello"]
  /\ commands (trace (snd (storeCar alice hello_car "hello" with_callbacks
                             whole_archive_run (Return remote_answer) initial_world)))
     = [PutUpload (Some "bucket-a") "hello" {[ "import" := "car" ]};
        HeadObjectCommand (Some "bucket-a") "hello"].
Proof. vm_compute. split; reflexivity. Qed.

(** The upload succeeds but the store returns no [cid] tag. *)
Example storeCar_untagged_answer :
  fst (storeCar alice hello_car "hello" with_callbacks whole_archive_run
                (Return untagged_answer) initial_world)
  = Throw (Js.Error "No CID Returned from Remote").
Proof. reflexivity. Qed.

(** All parts succeed and the body stream ends and closes, yet the
    completion callback that was supplied is not called. *)
Example storeCar_whole_archive_no_completion :
  let '(result, w) :=
    storeCar alice hello_car "hello" with_callbacks whole_archive_run
             (Return remote_answer) initial_world in
  onComplete with_callbacks = true
  /\ result = Return "QmRemote"
  /\ completions (trace w) = 0%nat.
Proof. vm_compute. repeat split. Qed.

(** The theorems above, at these inputs. *)

Lemma storeCar_returns_remote_cid_witness :
  configure alice (Some (Js.or_nat (maxRetries with_callbacks) MAX_STORE_RETRIES))
            initial_world = (Return alice_config, alice_world)
  /\ numeric (delivered whole_archive_run)
  /\ done whole_archive_run = None
  /\ storeCar alice hello_car "hello" with_callbacks whole_archive_run
              (Return remote_answer) initial_world
     = (Return "QmRemote",
        log alice_world
            [Sent alice_config (PutUpload (Some "bucket-a") "hello" {[ "import" := "car" ]});
             OnStoredChunk (17 - (1 # 100));
             Sent alice_config (HeadObjectCommand (Some "bucket-a") "hello")]).
Proof.
  assert (H1 : configure alice
                 (Some (Js.or_nat (maxRetries with_callbacks) MAX_STORE_RETRIES))
                 initial_world = (Return alice_config, alice_world)) by reflexivity.
  assert (H2 : numeric (delivered whole_archive_run)) by (repeat constructor).
  assert (H3 : done whole_archive_run = None) by reflexivity.
  refine (conj H1 (conj H2 (conj H3 _))).
  exact (storeCar_returns_remote_cid alice hello_car "hello" with_callbacks
           whole_archive_run remote_answer initial_world alice_world alice_config
           H1 H2 H3).
Defined.

Lemma status_normalized_record_witness :
  configure alice (Some MAX_STORE_RETRIES) initial_world
    = (Return alice_config, alice_world)
  /\ exists result,
       status alice "QmLocal" None (Return remote_answer) initial_world
       = (result,
          log alice_world
              [Sent alice_config (HeadObjectCommand (Some "bucket-a") "QmLocal")])
       /\ result = Return {| status_cid := "QmRemote";
                             status_size := 17;
                             deals := [];
                             pin := {| pin_cid := "QmRemote";
                                       pin_name := "QmRemote";
                                       pin_status := "pinned";
                                       pin_created := "2022-06-01T12:00:00.000Z" |};
                             created := "2022-06-01T12:00:00.000Z" |}.
Proof.
  assert (H1 : configure alice (Some MAX_STORE_RETRIES) initial_world
               = (Return alice_config, alice_world)) by reflexivity.
  split; [exact H1|].
  exact (status_normalized_record alice "QmLocal" None remote_answer
           initial_world alice_world alice_config H1).
Defined.

Lemma progress_listener_rejects_only_non_numbers_witness :
  configure alice (Some (Js.or_nat (maxRetries with_callbacks) MAX_STORE_RETRIES))
            initial_world = (Return alice_config, alice_world)
  /\ numeric (delivered out_of_order_run)
  /\ Js.typeof Js.Undefined <> "number"
  /\ on_httpUploadProgress with_callbacks Js.Undefined initial_progress alice_world
     = (Throw (Js.Error "Expected Number for Loaded Progress"), alice_world)
  /\ on_httpUploadProgress with_callbacks (Js.Number 6)
                           {| storedBytes := 12; progressBytes := 12 - (1 # 100) |}
                           alice_world
     = (Return {| storedBytes := 6; progressBytes := 6 - 12 |},
        log alice_world [OnStoredChunk (6 - 12)]).
Proof.
  assert (H1 : configure alice
                 (Some (Js.or_nat (maxRetries with_callbacks) MAX_STORE_RETRIES))
                 initial_world = (Return alice_config, alice_world)) by reflexivity.
  assert (H2 : numeric (delivered out_of_order_run)) by (repeat constructor).
  assert (H3 : Js.typeof Js.Undefined <> "number") by discriminate.
  destruct (progress_listener_rejects_only_non_numbers alice hello_car "hello"
              with_callbacks (delivered out_of_order_run) Js.Undefined remote_answer
              initial_world alice_world alice_config H1 H2 H3)
    as (Hthrow & Hnumber & _).
  refine (conj H1 (conj H2 (conj H3 (conj _ _)))).
  - exact (Hthrow initial_progress alice_world).
  - exact (Hnumber 6%Q {| storedBytes := 12; progressBytes := 12 - (1 # 100) |}
                   alice_world).
Defined.

Lemma empty_input_rejected_before_upload_witness :
  size empty_blob = 0%nat
  /\ total_size [empty_file] = 0%nat
  /\ encodeBlob empty_blob None initial_world
     = (Throw (Js.Error "Content size is 0, make sure to provide some content"),
        initial_world)
  /\ exists e w',
       storeDirectory alice [empty_file] None whole_archive_run
                      (Return remote_answer) initial_world = (Throw e, w')
       /\ trace w' = trace initial_world.
Proof.
  assert (H1 : size empty_blob = 0%nat) by reflexivity.
  assert (H2 : total_size [empty_file] = 0%nat) by reflexivity.
  pose proof (empty_input_rejected_before_upload empty_blob [empty_file] None
                initial_world alice None whole_archive_run (Return remote_answer)
                H1 H2) as (Hblob & _ & _ & Hdir).
  exact (conj H1 (conj H2 (conj Hblob Hdir))).
Defined.

Lemma encode_deterministic_witness :
  bytes hello_world = bytes hello_world_octets
  /\ directory_input [hello_file; empty_file] = directory_input [hello_file_octets; empty_file]
  /\ store_contents None initial_world
     = store_contents (Some 0%nat) (snd (new_Blockstore alice_world))
  /\ same_packing (encodeBlob hello_world None initial_world)
                  (encodeBlob hello_world_octets (Some 0%nat)
                              (snd (new_Blockstore alice_world)))
  /\ same_packing (encodeDirectory [hello_file; empty_file] None initial_world)
                  (encodeDirectory [hello_file_octets; empty_file] (Some 0%nat)
                                   (snd (new_Blockstore alice_world))).
Proof.
  assert (H1 : bytes hello_world = bytes hello_world_octets) by reflexivity.
  assert (H2 : directory_input [hello_file; empty_file]
               = directory_input [hello_file_octets; empty_file]) by reflexivity.
  assert (H3 : allocated None initial_world) by exact I.
  assert (H4 : allocated (Some 0%nat) (snd (new_Blockstore alice_world)))
    by (simpl; lia).
  assert (H5 : store_contents None initial_world
               = store_contents (Some 0%nat) (snd (new_Blockstore alice_world)))
    by reflexivity.
  refine (conj H1 (conj H2 (conj H5 _))).
  exact (encode_deterministic hello_world hello_world_octets
           [hello_file; empty_file] [hello_file_octets; empty_file]
           None (Some 0%nat) initial_world (snd (new_Blockstore alice_world))
           H1 H2 H3 H4 H5).
Defined.

Lemma store_operations_return_different_cids_witness :
  let blob_run := storeBlob alice hello_world None whole_archive_run
                            (Return remote_answer) initial_world in
  let directory_run := storeDirectory alice [hello_file] None whole_archive_run
                                      (Return remote_answer) initial_world in
  blob_run = (Return "QmRemote", snd blob_run)
  /\ directory_run = (Return "Qm3379618746", snd directory_run)
  /\ exists packed w1,
       encodeDirectory [hello_file] (Some 0%nat) (snd (new_Blockstore initial_world))
       = (Return packed, w1)
       /\ "Qm3379618746" = CID_toString (cid packed).
Proof.
  intros blob_run directory_run.
  assert (H1 : blob_run = (Return "QmRemote", snd blob_run)) by reflexivity.
  assert (H2 : directory_run = (Return "Qm3379618746", snd directory_run)) by reflexivity.
  refine (conj H1 (conj H2 _)).
  exact (proj1 (proj2 (store_operations_return_different_cids alice hello_world
                         [hello_file] None None whole_archive_run whole_archive_run
                         (Return remote_answer) (Return remote_answer)
                         initial_world initial_world (snd blob_run) (snd directory_run)
                         "QmRemote" "Qm3379618746" H1 H2))).
Defined.

End Scenarios.

(** * Further properties *)

(** ** The shape of a call: a result and a list of new events *)

Lemma emit_to_log ls name w :
  emit_to ls name w = (Return tt, log w (listener_calls ls name)).
Proof.
  revert w. induction ls as [|[n l] rest IH]; intros w.
  - cbn [emit_to listener_calls List.filter map]. unfold ret. by rewrite log_nil.
  - cbn [emit_to]. unfold bind, listener_calls. cbn [List.filter fst].
    destruct (String.eqb n name).
    + rewrite emit_log, IH, log_log. reflexivity.
    + unfold ret at 1. rewrite IH. reflexivity.
Qed.

Lemma deliver_shape up options evs st :
  exists r calls, forall w, deliver up options evs st w = (r, log w calls).
Proof.
  revert st. induction evs as [|ev evs IH]; intros st.
  - exists (Return st), []. intros w. cbn [deliver]. unfold ret. by rewrite log_nil.
  - destruct ev as [e|v]; cbn [deliver]; unfold bind.
    + destruct (IH st) as (r & calls & Hd).
      exists r, (listener_calls (body_listeners up) (event_name e) ++ calls)%list.
      intros w. by rewrite emit_to_log, Hd, log_log.
    + destruct v as [| |b|n|s|];
        try (exists (Throw (Js.Error "Expected Number for Loaded Progress")), [];
             intros w; cbn [on_httpUploadProgress]; unfold throw; by rewrite log_nil).
      cbn [on_httpUploadProgress]. unfold bind.
      destruct (IH {| storedBytes := n; progressBytes := (n - storedBytes st)%Q |})
        as (r & calls & Hd).
      destruct (onStoredChunk options).
      * exists r, (OnStoredChunk (n - storedBytes st)%Q :: calls).
        intros w. rewrite emit_log. unfold ret at 1. by rewrite Hd, log_log.
      * exists r, calls. intros w. unfold ret at 1 2. by rewrite Hd.
Qed.

(** What [configure] does to the static properties, and that the
    bucket it leaves on success does not depend on what was there. *)
Lemma configure_shape svc m :
  exists r f,
    (forall w, configure svc m w = (r, with_statics w (f (statics w))))
    /\ (forall cfg, r = Return cfg ->
        forall st st', this_bucket (f st) = this_bucket (f st')).
Proof.
  unfold configure, bind.
  destruct (s3config svc) as [c|]; [|destruct (token svc) as [t|]].
  - exists (Return c),
      (fun st => {| this_token := this_token st; this_bucket := svc_bucket svc |}).
    split; [intros w; reflexivity | reflexivity].
  - destruct (parseToken t) as [p|e]; cbn [settle].
    + exists (Return (token_config (credentials p)
                        (Js.or_string (endpoint svc) DEFAULT_ENDPOINT) m)),
        (fun st => {| this_token := Some (credentials p);
                      this_bucket := Some (Js.or_string (svc_bucket svc) (bucket p)) |}).
      split; [intros w; reflexivity | reflexivity].
    + exists (Throw e), (fun st => st).
      split; [intros [[] ? ?]; reflexivity | discriminate].
  - exists (Throw (Js.Error "s3config not defined")),
      (fun st => {| this_token := this_token st; this_bucket := svc_bucket svc |}).
    split; [intros w; reflexivity | discriminate].
Qed.

Lemma statics_log w evs : statics (log w evs) = statics w.
Proof. reflexivity. Qed.

Lemma log_with_statics w st evs :
  log (with_statics w st) evs = with_statics (log w evs) st.
Proof. reflexivity. Qed.

Lemma storeCar_shape svc car key options run head :
  exists r f calls,
    forall w,
      storeCar svc car key options run head w
      = (r, log (with_statics w (f (statics w))) calls).
Proof.
  destruct (configure_shape svc
              (Some (Js.or_nat (maxRetries options) MAX_STORE_RETRIES)))
    as (rc & f & Hc & Hb).
  destruct rc as [cfg|e].
  2:{ exists (Throw e), f, []. intros w. unfold storeCar, bind.
      by rewrite Hc, log_nil. }
  specialize (Hb cfg eq_refl).
  set (B := this_bucket (f {| this_token := None; this_bucket := None |})).
  set (up := {| client := cfg; upload_Bucket := B; upload_Key := key;
                body_listeners := if onComplete options
                                  then [("finish", OnComplete)] else [];
                queueSize := MAX_CONCURRENT_UPLOADS;
                leavePartsOnError := false |}).
  destruct (deliver_shape up options (delivered run) initial_progress)
    as (rd & calls & Hd).
  assert (Hbegin : forall w,
    storeCar_begin cfg car key options (with_statics w (f (statics w)))
    = (Return up, log (with_statics w (f (statics w)))
                      [Sent cfg (PutUpload B key {[ "import" := "car" ]})])).
  { intros w. unfold storeCar_begin, bind, get_this_bucket. rewrite emit_log.
    unfold ret. cbn [with_statics statics].
    rewrite (Hb (statics w) {| this_token := None; this_bucket := None |}).
    reflexivity. }
  destruct rd as [st'|e].
  2:{ exists (Throw e), f, (Sent cfg (PutUpload B key {[ "import" := "car" ]}) :: calls).
      intros w. unfold storeCar, bind. rewrite Hc, Hbegin.
      unfold storeCar_transfer, bind. by rewrite Hd, log_log. }
  destruct (done run) as [e|] eqn:Hdone.
  { exists (Throw e), f, (Sent cfg (PutUpload B key {[ "import" := "car" ]}) :: calls).
    intros w. unfold storeCar, bind. rewrite Hc, Hbegin.
    unfold storeCar_transfer, bind. rewrite Hd, Hdone, log_log. reflexivity. }
  assert (Hfin : exists r, forall w,
    storeCar_finish up key head w
    = (r, log w [Sent cfg (HeadObjectCommand (this_bucket (statics w)) key)])).
  { destruct head as [h|e].
    - eexists. intros w. apply storeCar_finish_answer.
    - exists (Throw e). intros w.
      unfold storeCar_finish, bind, get_this_bucket. rewrite emit_log. reflexivity. }
  destruct Hfin as (r & Hfin).
  exists r, f, ([Sent cfg (PutUpload B key {[ "import" := "car" ]})] ++ calls
                ++ [Sent cfg (HeadObjectCommand B key)])%list.
  intros w. unfold storeCar, bind. rewrite Hc, Hbegin.
  unfold storeCar_transfer, bind. rewrite Hd, Hdone. unfold ret at 1.
  rewrite Hfin, !log_log, statics_log. cbn [with_statics statics].
  rewrite (Hb (statics w) {| this_token := None; this_bucket := None |}).
  reflexivity.
Qed.

Lemma status_shape svc cid_ objectName head :
  exists r f calls,
    forall w,
      status svc cid_ objectName head w
      = (r, log (with_statics w (f (statics w))) calls).
Proof.
  destruct (configure_shape svc (Some MAX_STORE_RETRIES)) as (rc & f & Hc & Hb).
  destruct rc as [cfg|e].
  2:{ exists (Throw e), f, []. intros w. unfold status, bind. by rewrite Hc, log_nil. }
  specialize (Hb cfg eq_refl).
  set (B := this_bucket (f {| this_token := None; this_bucket := None |})).
  assert (Hrest : exists r, forall w : World,
    (carHeader <- settle head ;;
     match Metadata carHeader with
     | None => throw (Js.Error "No CID Returned from Remote")
     | Some metadata =>
         match metadata !! "cid" with
         | None => throw (Js.Error "No CID Returned from Remote")
         | Some remote_cid =>
             match ContentLength carHeader with
             | Js.Number contentLength =>
                 match LastModified carHeader with
                 | None => throw (Js.Error "Invalid Date")
                 | Some displayDate =>
                     ret {| status_cid := remote_cid;
                            status_size := contentLength;
                            deals := [];
                            pin := {| pin_cid := remote_cid;
                                      pin_name := remote_cid;
                                      pin_status := "pinned";
                                      pin_created := displayDate |};
                            created := displayDate |}
                 end
             | _ => throw (Js.Error "Invalid Content Length")
             end
         end
     end) w = (r, w)).
  { unfold bind. destruct head as [h|e]; cbn [settle]; [|by eexists].
    unfold ret at 1.
    destruct (Metadata h) as [md|]; [|by eexists].
    destruct (md !! "cid"); [|by eexists].
    destruct (ContentLength h); try by eexists.
    destruct (LastModified h); by eexists. }
  destruct Hrest as (r & Hrest).
  exists r, f, [Sent cfg (HeadObjectCommand B (Js.or_string objectName cid_))].
  intros w. unfold status. unfold bind at 1. rewrite Hc.
  unfold bind at 1. unfold get_this_bucket.
  unfold bind at 1. rewrite emit_log.
  cbn [with_statics statics].
  rewrite (Hb (statics w) {| this_token := None; this_bucket := None |}).
  apply Hrest.
Qed.

Lemma delete_shape svc cid_ objectName answer :
  exists r f calls,
    forall w,
      delete svc cid_ objectName answer w
      = (r, log (with_statics w (f (statics w))) calls).
Proof.
  destruct (configure_shape svc None) as (rc & f & Hc & Hb).
  destruct rc as [cfg|e].
  2:{ exists (Throw e), f, []. intros w. unfold delete, bind. by rewrite Hc, log_nil. }
  specialize (Hb cfg eq_refl).
  set (B := this_bucket (f {| this_token := None; this_bucket := None |})).
  exists answer, f, [Sent cfg (DeleteObjectCommand B (Js.or_string objectName cid_))].
  intros w. unfold delete, bind. rewrite Hc. unfold get_this_bucket.
  rewrite emit_log. cbn [with_statics statics].
  rewrite (Hb (statics w) {| this_token := None; this_bucket := None |}).
  destruct answer; reflexivity.
Qed.

Lemma shape_world_independent {A} (m : M A) :
  (exists r f calls,
     forall w, m w = (r, log (with_statics w (f (statics w))) calls)) ->
  world_independent m.
Proof.
  intros (r & f & calls & Hm) w w'. rewrite (Hm w), (Hm w').
  split; [reflexivity|]. split; [reflexivity|].
  exists calls. split; reflexivity.
Qed.

(** X17. Run one after the other, [storeCar], [status] and [delete]
    take nothing from the world they find: their result and the events
    they add are the same whatever [this.token] and [this.bucket] an
    earlier call left, and no blockstore is written. *)
Theorem calls_do_not_read_stale_statics
    (svc : Service) (car : Car) (key : string) (options : CarStorerOptions)
    (run : UploadRun) (head : Outcome HeadObjectOutput)
    (cid_ : string) (objectName : option string) (answer : Outcome unit) :
  world_independent (storeCar svc car key options run head)
  /\ world_independent (status svc cid_ objectName head)
  /\ world_independent (delete svc cid_ objectName answer).
Proof.
  split; [|split]; apply shape_world_independent.
  - apply storeCar_shape.
  - apply status_shape.
  - apply delete_shape.
Qed.

(** ** Which bucket and which credentials a call uses *)

Lemma configure_with_token ep t b m w p :
  parseToken t = Return p ->
  configure {| endpoint := ep; token := Some t; s3config := None; svc_bucket := b |} m w
  = (Return (token_config (credentials p) (Js.or_string ep DEFAULT_ENDPOINT) m),
     with_statics w {| this_token := Some (credentials p);
                       this_bucket := Some (Js.or_string b (bucket p)) |}).
Proof.
  intros Hp. unfold configure, bind. cbn [s3config token endpoint svc_bucket].
  rewrite Hp. reflexivity.
Qed.

Lemma configure_with_s3config ep tok cfg b m w :
  configure {| endpoint := ep; token := tok; s3config := Some cfg; svc_bucket := b |} m w
  = (Return cfg,
     with_statics w {| this_token := this_token (statics w); this_bucket := b |}).
Proof. reflexivity. Qed.

(** X1. [delete] with a token that parses and no [s3config] sends one
    [DeleteObjectCommand] and nothing else, with no lookup before it: to
    the bucket argument, or when that is missing or empty the bucket of
    the token, for the key [objectName || cid], through a client made of
    the token's keys with no retry bound of its own. The call ends as
    the remote answer does. *)
Theorem delete_with_token
    (ep : option string) (t : TokenInput) (b : option string)
    (cid_ : string) (objectName : option string) (answer : Outcome unit)
    (w : World) (p : ParseTokenResult) :
  parseToken t = Return p ->
  let Bucket := Some (Js.or_string b (bucket p)) in
  delete {| endpoint := ep; token := Some t; s3config := None; svc_bucket := b |}
         cid_ objectName answer w
  = (answer,
     log (with_statics w {| this_token := Some (credentials p); this_bucket := Bucket |})
         [Sent (token_config (credentials p) (Js.or_string ep DEFAULT_ENDPOINT) None)
               (DeleteObjectCommand Bucket (Js.or_string objectName cid_))]).
Proof.
  intros Hp Bucket. unfold delete, bind.
  rewrite (configure_with_token _ _ _ _ _ _ Hp).
  unfold get_this_bucket. rewrite emit_log.
  destruct answer; reflexivity.
Qed.

Lemma delete_with_s3config ep tok cfg b cid_ objectName answer w :
  delete {| endpoint := ep; token := tok; s3config := Some cfg; svc_bucket := b |}
         cid_ objectName answer w
  = (answer,
     log (with_statics w {| this_token := this_token (statics w); this_bucket := b |})
         [Sent cfg (DeleteObjectCommand b (Js.or_string objectName cid_))]).
Proof.
  unfold delete, bind. rewrite configure_with_s3config.
  unfold get_this_bucket. rewrite emit_log. destruct answer; reflexivity.
Qed.

Lemma status_with_s3config ep tok cfg b cid_ objectName head w :
  exists r,
    status {| endpoint := ep; token := tok; s3config := Some cfg; svc_bucket := b |}
           cid_ objectName head w
    = (r,
       log (with_statics w {| this_token := this_token (statics w); this_bucket := b |})
           [Sent cfg (HeadObjectCommand b (Js.or_string objectName cid_))])
    /\ (forall h, head = Return h -> complete_record h <> None ->
        exists record, r = Return record).
Proof.
  unfold status, bind. rewrite configure_with_s3config.
  unfold get_this_bucket. rewrite emit_log.
  destruct head as [h|e]; cbn [settle].
  2:{ eexists. split; [reflexivity | discriminate]. }
  unfold ret at 1.
  assert (Hincomplete : forall r : Outcome StatusResult,
            complete_record h = None ->
            forall h', Return h = Return h' -> complete_record h' <> None ->
            exists record, r = Return record).
  { intros r Hn h' [= <-] Hc. by destruct Hc. }
  destruct (Metadata h) as [md|] eqn:Hm.
  2:{ eexists. split; [reflexivity|]. apply Hincomplete.
      unfold complete_record, remote_cid. by rewrite Hm. }
  destruct (md !! "cid") as [c|] eqn:Hcid.
  2:{ eexists. split; [reflexivity|]. apply Hincomplete.
      unfold complete_record, remote_cid. by rewrite Hm, Hcid. }
  destruct (ContentLength h) as [| |x|n|x|] eqn:Hl;
    try (eexists; split; [reflexivity|]; apply Hincomplete;
         unfold complete_record, remote_cid; by rewrite Hm, Hcid, Hl).
  destruct (LastModified h) as [d|] eqn:Hd.
  - eexists. split; [reflexivity|]. eauto.
  - eexists. split; [reflexivity|]. apply Hincomplete.
    unfold complete_record, remote_cid. by rewrite Hm, Hcid, Hl, Hd.
Qed.

(** X2. When an [s3config] is passed, the token is not looked at: a
    token that would not parse does no harm, and the bucket a token
    names is not used. [delete] and [status] send their one command
    through that configuration to the bucket argument alone, which may
    be undefined; [status] still returns a record when the answer is
    complete. *)
Theorem s3config_takes_precedence
    (ep : option string) (tok : option TokenInput) (cfg : S3ClientConfig)
    (b : option string) (cid_ : string) (objectName : option string)
    (head : Outcome HeadObjectOutput) (answer : Outcome unit) (w : World) :
  let svc := {| endpoint := ep; token := tok; s3config := Some cfg; svc_bucket := b |} in
  let w1 := with_statics w {| this_token := this_token (statics w); this_bucket := b |} in
  delete svc cid_ objectName answer w
  = (answer, log w1 [Sent cfg (DeleteObjectCommand b (Js.or_string objectName cid_))])
  /\ exists r,
       status svc cid_ objectName head w
       = (r, log w1 [Sent cfg (HeadObjectCommand b (Js.or_string objectName cid_))])
       /\ (forall h, head = Return h -> complete_record h <> None ->
           exists record, r = Return record).
Proof.
  intros svc w1. split.
  - apply delete_with_s3config.
  - apply status_with_s3config.
Qed.

Lemma configure_failure svc m m' w e w1 :
  configure svc m w = (Throw e, w1) ->
  configure svc m' w = (Throw e, w1)
  /\ trace w1 = trace w
  /\ (e = Js.Error "s3config not defined"
      \/ exists i, (i < 3)%nat /\ e = Js.Error (field_error i)).
Proof.
  unfold configure, bind.
  destruct (s3config svc) as [c|]; [discriminate|].
  destruct (token svc) as [t|].
  - pose proof (parseToken_cases t) as Hc.
    destruct (parseToken t) as [p|x]; cbn [settle]; [discriminate|].
    intros [= <- <-]. destruct Hc as (i & Hi & -> & _). eauto 6.
  - intros [= <- <-]. auto.
Qed.

(** X3. A call whose configuration fails sends nothing: [storeCar],
    [status] and [delete] all fail with the same error, which is
    `s3config not defined` (neither a token nor an [s3config] was
    given) or one of the token errors, and the trace is as it was. *)
Theorem configuration_errors_come_first
    (svc : Service) (car : Car) (key : string) (options : CarStorerOptions)
    (run : UploadRun) (head : Outcome HeadObjectOutput)
    (cid_ : string) (objectName : option string) (answer : Outcome unit)
    (w w1 : World) (e : Js.Exn) :
  configure svc None w = (Throw e, w1) ->
  storeCar svc car key options run head w = (Throw e, w1)
  /\ status svc cid_ objectName head w = (Throw e, w1)
  /\ delete svc cid_ objectName answer w = (Throw e, w1)
  /\ trace w1 = trace w
  /\ (e = Js.Error "s3config not defined"
      \/ exists i, (i < 3)%nat /\ e = Js.Error (field_error i)).
Proof.
  intros Hcfg.
  destruct (configure_failure svc None
              (Some (Js.or_nat (maxRetries options) MAX_STORE_RETRIES)) w e w1 Hcfg)
    as (Hs & Htr & He).
  destruct (configure_failure svc None (Some MAX_STORE_RETRIES) w e w1 Hcfg)
    as (Hst & _ & _).
  repeat split; try assumption.
  - unfold storeCar, bind. by rewrite Hs.
  - unfold status, bind. by rewrite Hst.
  - unfold delete, bind. by rewrite Hcfg.
Qed.

(** ** Failures of the transport *)

(** X7. When the upload fails, [storeCar] fails with the error the
    upload gave, unchanged; the progress callbacks made before the
    failure stay made, and no head request is sent. *)
Theorem upload_failure_propagates
    (svc : Service) (car : Car) (key : string) (options : CarStorerOptions)
    (evs : list UploadEvent) (e : Js.Exn) (head : Outcome HeadObjectOutput)
    (w w1 : World) (cfg : S3ClientConfig) :
  configure svc (Some (Js.or_nat (maxRetries options) MAX_STORE_RETRIES)) w
    = (Return cfg, w1) ->
  numeric evs ->
  storeCar svc car key options {| delivered := evs; done := Some e |} head w
  = (Throw e,
     log w1 ([Sent cfg (PutUpload (this_bucket (statics w1)) key {[ "import" := "car" ]})]
             ++ chunk_calls options (1 # 100) evs)).
Proof.
  intros Hcfg Hnum. unfold storeCar, bind. rewrite Hcfg.
  destruct (storeCar_begin cfg car key options w1) as [[up|x] wb] eqn:Hb.
  2:{ unfold storeCar_begin, bind, get_this_bucket in Hb.
      rewrite emit_log in Hb. discriminate. }
  destruct (storeCar_begin_listeners _ _ _ _ _ _ _ Hb) as (Hls & Hcl & ->).
  unfold storeCar_transfer, bind. cbn [delivered done].
  destruct (deliver_numeric up options evs initial_progress
              (log w1 [Sent cfg (PutUpload (this_bucket (statics w1)) key {[ "import" := "car" ]})])
              Hls Hnum) as (st' & -> & _).
  by rewrite log_log.
Qed.

(** X8. When the head request fails, the call fails with the error of
    the remote store, unchanged: [status] after its one request,
    [storeCar] after an upload that went through. *)
Theorem head_failure_propagates
    (svc : Service) (car : Car) (key : string) (options : CarStorerOptions)
    (evs : list UploadEvent) (e : Js.Exn)
    (cid_ : string) (objectName : option string)
    (w w1 w1' : World) (cfg cfg' : S3ClientConfig) :
  configure svc (Some (Js.or_nat (maxRetries options) MAX_STORE_RETRIES)) w
    = (Return cfg, w1) ->
  configure svc (Some MAX_STORE_RETRIES) w = (Return cfg', w1') ->
  numeric evs ->
  storeCar svc car key options {| delivered := evs; done := None |} (Throw e) w
  = (Throw e,
     log w1 ([Sent cfg (PutUpload (this_bucket (statics w1)) key {[ "import" := "car" ]})]
             ++ chunk_calls options (1 # 100) evs
             ++ [Sent cfg (HeadObjectCommand (this_bucket (statics w1)) key)]))
  /\ status svc cid_ objectName (Throw e) w
     = (Throw e,
        log w1' [Sent cfg' (HeadObjectCommand (this_bucket (statics w1'))
                              (Js.or_string objectName cid_))]).
Proof.
  intros Hcfg Hcfg' Hnum. split.
  - unfold storeCar, bind. rewrite Hcfg.
    destruct (storeCar_begin cfg car key options w1) as [[up|x] wb] eqn:Hb.
    2:{ unfold storeCar_begin, bind, get_this_bucket in Hb.
        rewrite emit_log in Hb. discriminate. }
    destruct (storeCar_begin_listeners _ _ _ _ _ _ _ Hb) as (Hls & Hcl & ->).
    unfold storeCar_transfer, bind. cbn [delivered done].
    destruct (deliver_numeric up options evs initial_progress
                (log w1 [Sent cfg (PutUpload (this_bucket (statics w1)) key {[ "import" := "car" ]})])
                Hls Hnum) as (st' & -> & _).
    unfold ret at 1. unfold storeCar_finish, bind, get_this_bucket.
    rewrite emit_log, !log_log, Hcl, statics_log. reflexivity.
  - unfold status, bind. rewrite Hcfg'. unfold get_this_bucket.
    rewrite emit_log. reflexivity.
Qed.

(** ** Constructed clients *)

Lemma constructor_inv options w client w' :
  constructor options w = (Return client, w') ->
  w' = w
  /\ exists cfg creds,
       s3config client = Some cfg /\ s3_credentials cfg = Some creds.
Proof.
  unfold constructor, bind.
  destruct (token options) as [t|]; [|destruct (s3config options) as [cfg|]].
  - destruct (parseToken t) as [p|e]; cbn [settle]; [|discriminate].
    intros [= <- <-]. split; [done|]. cbn [s3config]. eauto.
  - destruct (s3_credentials cfg) as [creds|] eqn:Hc; [|discriminate].
    intros [= <- <-]. split; [done|]. cbn [s3config]. eauto.
  - discriminate.
Qed.

Lemma configure_s3config_any svc m w cfg :
  s3config svc = Some cfg ->
  configure svc m w
  = (Return cfg,
     with_statics w {| this_token := this_token (statics w);
                       this_bucket := svc_bucket svc |}).
Proof. intros H. unfold configure, bind. rewrite H. reflexivity. Qed.

Lemma storeCar_with_s3config svc car key options run head w cfg :
  s3config svc = Some cfg ->
  storeCar svc car key options run head w
  = (up <- storeCar_begin cfg car key options ;;
     storeCar_transfer up options run ;;;
     storeCar_finish up key head)
      (with_statics w {| this_token := this_token (statics w);
                         this_bucket := svc_bucket svc |}).
Proof.
  intros H. unfold storeCar. unfold bind at 1.
  by rewrite (configure_s3config_any _ _ _ _ H).
Qed.

Lemma deliver_options up cb oc m1 m2 evs st w :
  deliver up {| onStoredChunk := cb; onComplete := oc; maxRetries := m1 |} evs st w
  = deliver up {| onStoredChunk := cb; onComplete := oc; maxRetries := m2 |} evs st w.
Proof.
  revert st w. induction evs as [|ev evs IH]; intros st w; [reflexivity|].
  destruct ev as [e|v]; cbn [deliver]; unfold bind.
  - destruct (emit_to _ _ w) as [[[]|x] w']; [apply IH | reflexivity].
  - destruct v; try reflexivity.
    cbn [on_httpUploadProgress onStoredChunk]. unfold bind.
    destruct (if cb then _ else _) as [[[]|x] w']; [|reflexivity].
    unfold ret at 1 2. apply IH.
Qed.

(** X4. A client constructed from a token that parses: construction
    changes nothing in the world, and every later [delete] and
    [status] of the client goes to the bucket option, or when that is
    missing or empty the bucket of the token, with the token's keys,
    the endpoint option (the default when it is undefined) and five
    attempts. The token is not parsed again. *)
Theorem token_client_uses_token_bucket
    (ep : option string) (t : TokenInput) (b : option string)
    (ignored : option S3ClientConfig) (w : World) (p : ParseTokenResult) :
  parseToken t = Return p ->
  let Bucket := Some (Js.or_string b (bucket p)) in
  let cfg := token_config (credentials p) (default DEFAULT_ENDPOINT ep)
                          (Some MAX_STORE_RETRIES) in
  exists client,
    constructor {| endpoint := ep; token := Some t; s3config := ignored; svc_bucket := b |} w
    = (Return client, w)
    /\ forall cid_ objectName answer head u,
         let u1 := with_statics u {| this_token := this_token (statics u);
                                     this_bucket := Bucket |} in
         Instance.delete client cid_ objectName answer u
         = (answer,
            log u1 [Sent cfg (DeleteObjectCommand Bucket (Js.or_string objectName cid_))])
         /\ exists r,
              Instance.status client cid_ objectName head u
              = (r, log u1 [Sent cfg (HeadObjectCommand Bucket (Js.or_string objectName cid_))]).
Proof.
  intros Hp Bucket cfg. eexists. split.
  - unfold constructor, bind. cbn [token s3config endpoint svc_bucket].
    rewrite Hp. cbn [settle]. unfold ret. reflexivity.
  - intros cid_ objectName answer head u u1.
    split; [apply delete_with_s3config|].
    destruct (status_with_s3config (Some (default DEFAULT_ENDPOINT ep))
                (Some (TokenArray (credentials p))) cfg Bucket
                cid_ objectName head u) as (r & Hs & _).
    exists r. exact Hs.
Qed.

(** X5. A client constructed from an [s3config] has no bucket: the
    bucket option is dropped, so every [delete] and [status] of the
    client is sent with an undefined [Bucket]. *)
Theorem s3config_client_has_no_bucket
    (ep b : option string) (cfg : S3ClientConfig) (creds : Credentials) (w : World) :
  s3_credentials cfg = Some creds ->
  exists client,
    constructor {| endpoint := ep; token := None; s3config := Some cfg; svc_bucket := b |} w
    = (Return client, w)
    /\ svc_bucket client = None
    /\ forall cid_ objectName answer head u,
         let u1 := with_statics u {| this_token := this_token (statics u);
                                     this_bucket := None |} in
         Instance.delete client cid_ objectName answer u
         = (answer,
            log u1 [Sent cfg (DeleteObjectCommand None (Js.or_string objectName cid_))])
         /\ exists r,
              Instance.status client cid_ objectName head u
              = (r, log u1 [Sent cfg (HeadObjectCommand None (Js.or_string objectName cid_))]).
Proof.
  intros Hc. eexists. split; [|split].
  - unfold constructor. cbn [token s3config]. rewrite Hc. reflexivity.
  - reflexivity.
  - intros cid_ objectName answer head u u1.
    split; [apply delete_with_s3config|].
    destruct (status_with_s3config (Some (default DEFAULT_ENDPOINT ep))
                None cfg None cid_ objectName head u) as (r & Hs & _).
    exists r. exact Hs.
Qed.

(** X6. For a constructed client the [maxRetries] option of [storeCar]
    has no effect: the client's configuration was fixed by the
    constructor, and calls that differ in [maxRetries] only do the
    same. *)
Theorem client_ignores_maxRetries
    (options : Service) (w w' : World) (client : Service) :
  constructor options w = (Return client, w') ->
  forall car key cb oc m1 m2 run head u,
    Instance.storeCar client car key
      {| onStoredChunk := cb; onComplete := oc; maxRetries := m1 |} run head u
    = Instance.storeCar client car key
        {| onStoredChunk := cb; onComplete := oc; maxRetries := m2 |} run head u.
Proof.
  intros Hc car0 key cb oc m1 m2 run head u.
  destruct (constructor_inv _ _ _ _ Hc) as (_ & cfg & creds & Hcfg & _).
  unfold Instance.storeCar.
  rewrite !(storeCar_with_s3config _ _ _ _ _ _ _ _ Hcfg).
  unfold bind.
  change (storeCar_begin cfg car0 key
            {| onStoredChunk := cb; onComplete := oc; maxRetries := m1 |})
    with (storeCar_begin cfg car0 key
            {| onStoredChunk := cb; onComplete := oc; maxRetries := m2 |}).
  destruct (storeCar_begin cfg car0 key _ _) as [[up|x] wb]; [|reflexivity].
  unfold storeCar_transfer, bind.
  by rewrite (deliver_options up cb oc m1 m2).
Qed.

(** ** The blockstore of a store operation *)

Lemma try_finally_world {A} (body : M A) (cleanup : M unit) w :
  snd (try_finally body cleanup w) = snd (cleanup (snd (body w))).
Proof.
  unfold try_finally. destruct (body w) as [r w1]. cbn [snd].
  destruct (cleanup w1) as [[[]|e] w2]; reflexivity.
Qed.

Lemma storeCar_blockstores svc car key options run head w :
  blockstores (snd (storeCar svc car key options run head w)) = blockstores w.
Proof.
  destruct (storeCar_shape svc car key options run head) as (r & f & calls & H).
  by rewrite H.
Qed.

Lemma close_last_blockstore l b c w :
  blockstores w = (l ++ [{| blocks := b; closed := c |}])%list ->
  blockstores (snd (close_blockstore (length l) w))
  = (l ++ [{| blocks := b; closed := true |}])%list
  /\ trace (snd (close_blockstore (length l) w)) = trace w.
Proof.
  intros H. unfold close_blockstore. cbn [snd blockstores trace]. rewrite H.
  rewrite list_lookup_middle by done.
  rewrite insert_app_r_alt by lia. rewrite Nat.sub_diag. done.
Qed.

Section StoreProperties.

Context `{deps : Dependencies}.

Lemma packCar_last_blockstore input wrap l b c w :
  blockstores w = (l ++ [{| blocks := b; closed := c |}])%list ->
  exists b',
    blockstores (snd (packCar input (Some (length l)) wrap w))
    = (l ++ [{| blocks := b'; closed := c |}])%list.
Proof.
  intros H. unfold packCar, bind. cbn [ret read_blockstore].
  destruct (pack input _ _) as [packed after].
  exists after.
  assert (Hw : blockstores (snd (write_blockstore (length l) after w))
               = (l ++ [{| blocks := after; closed := c |}])%list).
  { unfold write_blockstore. cbn [snd blockstores]. rewrite H.
    rewrite list_lookup_middle by done.
    rewrite insert_app_r_alt by lia. rewrite Nat.sub_diag. done. }
  destruct packed as [p|e]; exact Hw.
Qed.

Lemma encodeBlob_last_blockstore blob l b c w :
  blockstores w = (l ++ [{| blocks := b; closed := c |}])%list ->
  exists b',
    blockstores (snd (encodeBlob blob (Some (length l)) w))
    = (l ++ [{| blocks := b'; closed := c |}])%list.
Proof.
  intros H. unfold encodeBlob. destruct (Nat.eqb (size blob) 0).
  - exists b. exact H.
  - by apply (packCar_last_blockstore _ _ l b c).
Qed.

Lemma encodeDirectory_last_blockstore files l b c w :
  blockstores w = (l ++ [{| blocks := b; closed := c |}])%list ->
  exists b',
    blockstores (snd (encodeDirectory files (Some (length l)) w))
    = (l ++ [{| blocks := b'; closed := c |}])%list.
Proof.
  intros H. unfold encodeDirectory, bind.
  destruct (packCar_last_blockstore
              (map (fun file => toImportCandidate (name file) (file_blob file)) files)
              true l b c w H) as (b' & Hp).
  exists b'.
  destruct (packCar _ (Some (length l)) true w) as [[p|e] w1]; cbn [snd] in *.
  - by destruct (Nat.eqb (total_size files) 0).
  - exact Hp.
Qed.

(** X9. However [storeBlob] and [storeDirectory] end (the input is
    empty, the packer fails, the configuration is bad, the upload or the
    head request fails, or all goes well), the blockstore the call made
    is closed when it returns, it is the only one added, and the
    blockstores that were there are as they were. *)
Theorem store_operations_close_their_blockstore
    (svc : Service) (blob : Blob) (files : list File)
    (nameB nameD : option string) (run : UploadRun)
    (head : Outcome HeadObjectOutput) (w : World) :
  (exists b,
     blockstores (snd (storeBlob svc blob nameB run head w))
     = (blockstores w ++ [{| blocks := b; closed := true |}])%list)
  /\ (exists b,
        blockstores (snd (storeDirectory svc files nameD run head w))
        = (blockstores w ++ [{| blocks := b; closed := true |}])%list).
Proof.
  assert (H0 : blockstores (snd (new_Blockstore w))
               = (blockstores w ++ [{| blocks := []; closed := false |}])%list)
    by reflexivity.
  split.
  - destruct (encodeBlob_last_blockstore blob _ _ _ _ H0) as (b & Hb).
    exists b. unfold storeBlob. unfold bind at 1.
    change (new_Blockstore w) with (Return (length (blockstores w)), snd (new_Blockstore w)).
    cbv beta iota. rewrite try_finally_world.
    refine (proj1 (close_last_blockstore (blockstores w) b false _ _)). unfold bind.
    destruct (encodeBlob blob _ _) as [[p|e] w1]; cbn [snd] in *; [|exact Hb].
    pose proof (storeCar_blockstores svc (car p)
                  (Js.or_string nameB (CID_toString (cid p)))
                  {| onStoredChunk := false; onComplete := false; maxRetries := None |}
                  run head w1) as Hs.
    destruct (storeCar _ _ _ _ _ _ w1) as [[s|e] w2]; unfold ret; cbn [snd] in *; congruence.
  - destruct (encodeDirectory_last_blockstore files _ _ _ _ H0) as (b & Hb).
    exists b. unfold storeDirectory. unfold bind at 1.
    change (new_Blockstore w) with (Return (length (blockstores w)), snd (new_Blockstore w)).
    cbv beta iota.
    assert (Hw : forall (m : M string),
              snd ((cidString <- m ;; ret cidString) (snd (new_Blockstore w)))
              = snd (m (snd (new_Blockstore w)))).
    { intros m. unfold bind. by destruct (m _) as [[x|e] w1]. }
    rewrite Hw, try_finally_world.
    refine (proj1 (close_last_blockstore (blockstores w) b false _ _)). unfold bind.
    destruct (encodeDirectory files _ _) as [[p|e] w1]; cbn [snd] in *; [|exact Hb].
    pose proof (storeCar_blockstores svc (car p)
                  (Js.or_string nameD (CID_toString (cid p)))
                  {| onStoredChunk := false; onComplete := false; maxRetries := None |}
                  run head w1) as Hs.
    destruct (storeCar _ _ _ _ _ _ w1) as [[s|e] w2]; unfold ret; cbn [snd] in *; congruence.
Qed.

(** X10. When the blob encodes, the configuration is valid and the
    upload goes through, [storeBlob] uploads under the object name, or
    when that is missing or empty under the string of the root CID it
    computed, and asks for the head of that same key; no callback is
    made and the result is the [cid] tag of the answer. For a call
    that runs alone, with no other static call while the upload is
    pending, the head request goes to the bucket of the upload; the
    bucket is read again from [this.bucket] after the upload, so
    another call made meanwhile moves it. *)
Theorem storeBlob_object_key
    (svc : Service) (blob : Blob) (objectName : option string)
    (run : UploadRun) (h : HeadObjectOutput)
    (w w1 w2 : World) (packed : PackedCar) (cfg : S3ClientConfig) :
  encodeBlob blob (Some (length (blockstores w))) (snd (new_Blockstore w))
    = (Return packed, w1) ->
  configure svc (Some MAX_STORE_RETRIES) w1 = (Return cfg, w2) ->
  numeric (delivered run) ->
  done run = None ->
  let key := Js.or_string objectName (CID_toString (cid packed)) in
  let Bucket := this_bucket (statics w2) in
  fst (storeBlob svc blob objectName run (Return h) w)
  = match remote_cid h with
    | Some c => Return c
    | None => Throw (Js.Error "No CID Returned from Remote")
    end
  /\ trace (snd (storeBlob svc blob objectName run (Return h) w))
     = (trace w2 ++ [Sent cfg (PutUpload Bucket key {[ "import" := "car" ]});
                     Sent cfg (HeadObjectCommand Bucket key)])%list.
Proof.
  intros Henc Hcfg Hnum Hdone key Bucket. subst key Bucket.
  destruct run as [evs settled]. cbn [delivered done] in *. subst settled.
  assert (Hrun : storeBlob svc blob objectName {| delivered := evs; done := None |}
                           (Return h) w
                 = (match remote_cid h with
                    | Some c => Return c
                    | None => Throw (Js.Error "No CID Returned from Remote")
                    end,
                    snd (close_blockstore (length (blockstores w))
                           (log w2 [Sent cfg (PutUpload (this_bucket (statics w2))
                                                (Js.or_string objectName (CID_toString (cid packed)))
                                                {[ "import" := "car" ]});
                                    Sent cfg (HeadObjectCommand (this_bucket (statics w2))
                                                (Js.or_string objectName (CID_toString (cid packed))))])))).
  { unfold storeBlob. unfold bind at 1.
    change (new_Blockstore w)
      with (Return (length (blockstores w)), snd (new_Blockstore w)).
    cbv beta iota. unfold try_finally, bind. rewrite Henc.
    rewrite (storeCar_numeric_run svc (car packed) _
               {| onStoredChunk := false; onComplete := false; maxRetries := None |}
               evs h w1 w2 cfg Hcfg Hnum).
    unfold chunk_calls. cbn [onStoredChunk app].
    destruct (remote_cid h) as [c|]; reflexivity. }
  rewrite Hrun. split; reflexivity.
Qed.


End StoreProperties.

(** ** String tokens *)

(** X11. What becomes of a string token is decided by the number of
    colons in the text it decodes to: none gives `Invalid Secret Key`,
    one gives `No Bucket Found`, two or more are accepted, with the
    third part as the bucket and all the parts as credentials. *)
Theorem parseToken_string_by_colons (encoded : string) :
  let parts := Js.split ":"%char (decoded encoded) in
  match occurrences ":"%char (decoded encoded) with
  | 0 => parseToken (TokenString encoded) = Throw (Js.Error "Invalid Secret Key")
  | 1 => parseToken (TokenString encoded) = Throw (Js.Error "No Bucket Found")
  | S (S more) =>
      exists b,
        parts !! 2%nat = Some b
        /\ length parts = (3 + more)%nat
        /\ parseToken (TokenString encoded)
           = Return {| credentials := parts; bucket := b |}
  end.
Proof.
  intros parts.
  pose proof (split_go_length ":"%char (decoded encoded) EmptyString) as Hlen.
  fold (Js.split ":"%char (decoded encoded)) in Hlen. fold parts in Hlen.
  unfold parseToken. fold (decoded encoded). fold parts.
  destruct (occurrences ":"%char (decoded encoded)) as [|[|more]];
    destruct parts as [|a [|k [|b rest]]]; try discriminate Hlen; try reflexivity.
  exists b. repeat split. exact Hlen.
Qed.

(** ** Metadata *)

(** X12. [validateERC1155] accepts a record exactly when [name] and
    [description] are strings, [image] is a [Blob] and [decimals] is
    undefined or a number; every rejection is a [TypeError], the one
    for [name] coming before the one for [description]. An image whose
    MIME type does not start with `image/` is not rejected: it is
    accepted with one warning on the console. *)
Theorem validateERC1155_accepts_well_formed (input : ERC1155Input) :
  (snd (validateERC1155 input) = Return tt <-> well_formed_metadata input)
  /\ (forall e, snd (validateERC1155 input) = Throw e -> exists msg, e = Js.TypeError msg)
  /\ (Js.typeof (nft_name input) <> "string" ->
      validateERC1155 input
      = ([], Throw (Js.TypeError "string property `name` identifying the asset is required")))
  /\ (Js.typeof (nft_name input) = "string" ->
      Js.typeof (description input) <> "string" ->
      validateERC1155 input
      = ([], Throw (Js.TypeError "string property `description` describing asset is required")))
  /\ (forall b, image input = IsBlob b -> well_formed_metadata input ->
      validateERC1155 input
      = (if String.prefix "image/" (type b) then [] else [image_mime_warning],
         Return tt)).
Proof.
  unfold validateERC1155, well_formed_metadata.
  destruct input as [n d i dec props]. cbn [nft_name description image decimals].
  split; [|split; [|split; [|split]]].
  - split.
    + destruct n; try discriminate. destruct d; try discriminate.
      destruct i as [b|v]; [|discriminate].
      destruct dec; try discriminate; intros _; simpl; eauto 6.
    + intros (Hn & Hd & (b & ->) & Hdec).
      destruct n; try discriminate. destruct d; try discriminate.
      destruct dec; simpl in Hdec; destruct Hdec; try discriminate; reflexivity.
  - intros e. destruct n; try (intros [= <-]; eauto).
    destruct d; try (intros [= <-]; eauto).
    destruct i as [b|v]; [|intros [= <-]; eauto].
    destruct dec; intros [= <-]; eauto.
  - intros Hn. destruct n; try reflexivity. by destruct Hn.
  - intros Hn Hd. destruct n; try discriminate.
    destruct d; try reflexivity. by destruct Hd.
  - intros b -> (Hn & Hd & _ & Hdec).
    destruct n; try discriminate. destruct d; try discriminate.
    destruct dec; simpl in Hdec; destruct Hdec; try discriminate; reflexivity.
Qed.

Section MetadataProperties.

Context `{deps : Dependencies} `{tokens : TokenModule}.

(** X13. Metadata that [validateERC1155] rejects stops [encodeNFT] and
    [store] at once, with the validation error: the token encoder is
    not run, nothing is packed and nothing is sent. The world is as it
    was. *)
Theorem store_validates_first
    (service : Service) (metadata : ERC1155Input) (objectName : option string)
    (run : UploadRun) (head : Outcome HeadObjectOutput) (w : World) (e : Js.Exn) :
  snd (validateERC1155 metadata) = Throw e ->
  encodeNFT metadata w = (Throw e, w)
  /\ store service metadata objectName run head w = (Throw e, w).
Proof.
  intros Hv.
  assert (He : encodeNFT metadata w = (Throw e, w)).
  { unfold encodeNFT, bind. rewrite Hv. reflexivity. }
  split; [exact He|]. unfold store, bind. by rewrite He.
Qed.


End MetadataProperties.

(** ** Progress values *)

Lemma deltas_nonnegative prev ns :
  nondecreasing prev ns -> Forall (fun v => 0 <= v)%Q (deltas prev ns).
Proof.
  revert prev. induction ns as [|n rest IH]; intros prev; [constructor|].
  cbn [nondecreasing deltas]. intros [Hle Hrest]. constructor.
  - unfold Qminus. by apply Qle_minus_iff in Hle.
  - by apply IH.
Qed.

Lemma stored_chunks_calls ds : stored_chunks (map OnStoredChunk ds) = ds.
Proof.
  induction ds as [|d ds IH]; [reflexivity|].
  change (d :: stored_chunks (map OnStoredChunk ds) = d :: ds). by rewrite IH.
Qed.

(** X16. In an upload whose ticks are all numbers, the callback gets,
    tick by tick, the difference to the tick before, the first one
    against [0.01]; when the cumulative values never go down and the
    first is at least [0.01], none of the values passed is
    negative. *)
Theorem progress_callbacks_are_differences
    (svc : Service) (car : Car) (key : string) (options : CarStorerOptions)
    (evs : list UploadEvent) (h : HeadObjectOutput) (w w1 : World)
    (cfg : S3ClientConfig) :
  configure svc (Some (Js.or_nat (maxRetries options) MAX_STORE_RETRIES)) w
    = (Return cfg, w1) ->
  numeric evs ->
  onStoredChunk options = true ->
  let w2 := snd (storeCar svc car key options
                   {| delivered := evs; done := None |} (Return h) w) in
  stored_chunks (trace w2)
  = (stored_chunks (trace w1) ++ deltas (1 # 100) (loaded_values evs))%list
  /\ (nondecreasing (1 # 100) (loaded_values evs) ->
      Forall (fun v => 0 <= v)%Q (deltas (1 # 100) (loaded_values evs))).
Proof.
  intros Hcfg Hnum Hcb w2. subst w2.
  rewrite (storeCar_numeric_run _ _ _ _ _ _ _ _ _ Hcfg Hnum).
  split; [|apply deltas_nonnegative].
  unfold log, chunk_calls. cbn [snd trace]. rewrite Hcb.
  rewrite !stored_chunks_app, stored_chunks_calls.
  cbn [stored_chunks flat_map app]. by rewrite app_nil_r.
Qed.

(** * The further properties on concrete inputs *)

Section MoreScenarios.

Import Reference Scenario.

Lemma delete_with_token_witness :
  parseToken (TokenString "QUtJQS1BTElDRTpzZWNyZXQtYTpidWNrZXQtYQ==")
  = Return {| credentials := ["AKIA-ALICE"; "secret-a"; "bucket-a"];
              bucket := "bucket-a" |}
  /\ delete {| endpoint := None;
               token := Some (TokenString "QUtJQS1BTElDRTpzZWNyZXQtYTpidWNrZXQtYQ==");
               s3config := None;
               svc_bucket := Some "" |}
            "QmRemote" None (Throw (Js.Rejected "NoSuchKey")) initial_world
     = (Throw (Js.Rejected "NoSuchKey"),
        log (with_statics initial_world
               {| this_token := Some ["AKIA-ALICE"; "secret-a"; "bucket-a"];
                  this_bucket := Some "bucket-a" |})
            [Sent (token_config ["AKIA-ALICE"; "secret-a"; "bucket-a"]
                                DEFAULT_ENDPOINT None)
                  (DeleteObjectCommand (Some "bucket-a") "QmRemote")]).
Proof.
  assert (H1 : parseToken (TokenString "QUtJQS1BTElDRTpzZWNyZXQtYTpidWNrZXQtYQ==")
               = Return {| credentials := ["AKIA-ALICE"; "secret-a"; "bucket-a"];
                           bucket := "bucket-a" |}) by (vm_compute; reflexivity).
  refine (conj H1 _).
  exact (delete_with_token None _ (Some "") "QmRemote" None
           (Throw (Js.Rejected "NoSuchKey")) initial_world _ H1).
Defined.

Lemma configuration_errors_come_first_witness :
  let svc := {| endpoint := None; token := None; s3config := None;
                svc_bucket := Some "bucket-c" |} in
  let w1 := with_statics initial_world
              {| this_token := None; this_bucket := Some "bucket-c" |} in
  configure svc None initial_world = (Throw (Js.Error "s3config not defined"), w1)
  /\ storeCar svc hello_car "hello" with_callbacks whole_archive_run
              (Return remote_answer) initial_world
     = (Throw (Js.Error "s3config not defined"), w1)
  /\ trace w1 = [].
Proof.
  intros svc w1.
  assert (H1 : configure svc None initial_world
               = (Throw (Js.Error "s3config not defined"), w1)) by reflexivity.
  pose proof (configuration_errors_come_first svc hello_car "hello" with_callbacks
                whole_archive_run (Return remote_answer) "QmRemote" None (Return tt)
                initial_world w1 _ H1) as (Hs & _ & _ & Htr & _).
  exact (conj H1 (conj Hs Htr)).
Defined.

Lemma token_client_uses_token_bucket_witness :
  parseToken (TokenString "QUtJQS1BTElDRTpzZWNyZXQtYTpidWNrZXQtYQ==")
  = Return {| credentials := ["AKIA-ALICE"; "secret-a"; "bucket-a"];
              bucket := "bucket-a" |}
  /\ exists client,
       constructor alice_options initial_world = (Return client, initial_world)
       /\ Instance.delete client "QmRemote" None (Return tt) initial_world
          = (Return tt,
             log (with_statics initial_world
                    {| this_token := None; this_bucket := Some "bucket-override" |})
                 [Sent (token_config ["AKIA-ALICE"; "secret-a"; "bucket-a"]
                                     "http://localhost:8080/" (Some MAX_STORE_RETRIES))
                       (DeleteObjectCommand (Some "bucket-override") "QmRemote")]).
Proof.
  assert (H1 : parseToken (TokenString "QUtJQS1BTElDRTpzZWNyZXQtYTpidWNrZXQtYQ==")
               = Return {| credentials := ["AKIA-ALICE"; "secret-a"; "bucket-a"];
                           bucket := "bucket-a" |}) by (vm_compute; reflexivity).
  refine (conj H1 _).
  destruct (token_client_uses_token_bucket (Some "http://localhost:8080/") _
              (Some "bucket-override") None initial_world _ H1)
    as (client & Hc & Hcalls).
  exists client. split; [exact Hc|].
  exact (proj1 (Hcalls "QmRemote" None (Return tt) (Return remote_answer) initial_world)).
Defined.

Lemma s3config_client_has_no_bucket_witness :
  s3_credentials alice_config
  = Some {| accessKeyId := "AKIA-ALICE"; secretAccessKey := "secret-a" |}
  /\ exists client,
       constructor carol_options initial_world = (Return client, initial_world)
       /\ svc_bucket client = None
       /\ Instance.delete client "QmRemote" None (Return tt) initial_world
          = (Return tt,
             log (with_statics initial_world {| this_token := None; this_bucket := None |})
                 [Sent alice_config (DeleteObjectCommand None "QmRemote")]).
Proof.
  assert (H1 : s3_credentials alice_config
               = Some {| accessKeyId := "AKIA-ALICE"; secretAccessKey := "secret-a" |})
    by reflexivity.
  refine (conj H1 _).
  destruct (s3config_client_has_no_bucket None (Some "bucket-c") alice_config _
              initial_world H1) as (client & Hc & Hb & Hcalls).
  exists client. split; [exact Hc|]. split; [exact Hb|].
  exact (proj1 (Hcalls "QmRemote" None (Return tt) (Return remote_answer) initial_world)).
Defined.

Lemma client_ignores_maxRetries_witness :
  constructor alice_options initial_world = (Return alice_client, initial_world)
  /\ Instance.storeCar alice_client hello_car "hello"
       {| onStoredChunk := true; onComplete := false; maxRetries := Some 10%nat |}
       whole_archive_run (Return remote_answer) initial_world
     = Instance.storeCar alice_client hello_car "hello"
         {| onStoredChunk := true; onComplete := false; maxRetries := None |}
         whole_archive_run (Return remote_answer) initial_world.
Proof.
  assert (H1 : constructor alice_options initial_world
               = (Return alice_client, initial_world)) by (vm_compute; reflexivity).
  refine (conj H1 _).
  exact (client_ignores_maxRetries alice_options initial_world initial_world
           alice_client H1 hello_car "hello" true false (Some 10%nat) None
           whole_archive_run (Return remote_answer) initial_world).
Defined.

Lemma upload_failure_propagates_witness :
  configure alice (Some (Js.or_nat (maxRetries with_callbacks) MAX_STORE_RETRIES))
            initial_world = (Return alice_config, alice_world)
  /\ numeric (delivered failing_run)
  /\ storeCar alice hello_car "hello" with_callbacks failing_run
              (Return remote_answer) initial_world
     = (Throw (Js.Rejected "NetworkingError"),
        log alice_world
            [Sent alice_config (PutUpload (Some "bucket-a") "hello" {[ "import" := "car" ]});
             OnStoredChunk (5 - (1 # 100))]).
Proof.
  assert (H1 : configure alice
                 (Some (Js.or_nat (maxRetries with_callbacks) MAX_STORE_RETRIES))
                 initial_world = (Return alice_config, alice_world)) by reflexivity.
  assert (H2 : numeric (delivered failing_run)) by (repeat constructor).
  refine (conj H1 (conj H2 _)).
  exact (upload_failure_propagates alice hello_car "hello" with_callbacks
           (delivered failing_run) (Js.Rejected "NetworkingError")
           (Return remote_answer) initial_world alice_world alice_config H1 H2).
Defined.

Lemma head_failure_propagates_witness :
  configure alice (Some (Js.or_nat (maxRetries with_callbacks) MAX_STORE_RETRIES))
            initial_world = (Return alice_config, alice_world)
  /\ configure alice (Some MAX_STORE_RETRIES) initial_world
     = (Return alice_config, alice_world)
  /\ numeric (delivered whole_archive_run)
  /\ status alice "QmRemote" None (Throw (Js.Rejected "NotFound")) initial_world
     = (Throw (Js.Rejected "NotFound"),
        log alice_world
            [Sent alice_config (HeadObjectCommand (Some "bucket-a") "QmRemote")]).
Proof.
  assert (H1 : configure alice
                 (Some (Js.or_nat (maxRetries with_callbacks) MAX_STORE_RETRIES))
                 initial_world = (Return alice_config, alice_world)) by reflexivity.
  assert (H2 : configure alice (Some MAX_STORE_RETRIES) initial_world
               = (Return alice_config, alice_world)) by reflexivity.
  assert (H3 : numeric (delivered whole_archive_run)) by (repeat constructor).
  refine (conj H1 (conj H2 (conj H3 _))).
  exact (proj2 (head_failure_propagates alice hello_car "hello" with_callbacks
                  (delivered whole_archive_run) (Js.Rejected "NotFound")
                  "QmRemote" None initial_world alice_world alice_world
                  alice_config alice_config H1 H2 H3)).
Defined.

Lemma storeBlob_object_key_witness :
  let w0 := snd (new_Blockstore initial_world) in
  let w1 := snd (encodeBlob hello_world (Some 0%nat) w0) in
  let w2 := snd (configure alice (Some MAX_STORE_RETRIES) w1) in
  encodeBlob hello_world (Some 0%nat) w0 = (Return hello_packed, w1)
  /\ configure alice (Some MAX_STORE_RETRIES) w1 = (Return alice_config, w2)
  /\ numeric (delivered whole_archive_run)
  /\ done whole_archive_run = None
  /\ trace (snd (storeBlob alice hello_world (Some "") whole_archive_run
                           (Return remote_answer) initial_world))
     = [Sent alice_config (PutUpload (Some "bucket-a") "Qm1556663230" {[ "import" := "car" ]});
        Sent alice_config (HeadObjectCommand (Some "bucket-a") "Qm1556663230")].
Proof.
  intros w0 w1 w2.
  assert (H1 : encodeBlob hello_world (Some 0%nat) w0 = (Return hello_packed, w1))
    by (vm_compute; reflexivity).
  assert (H2 : configure alice (Some MAX_STORE_RETRIES) w1 = (Return alice_config, w2))
    by (vm_compute; reflexivity).
  assert (H3 : numeric (delivered whole_archive_run)) by (repeat constructor).
  assert (H4 : done whole_archive_run = None) by reflexivity.
  refine (conj H1 (conj H2 (conj H3 (conj H4 _)))).
  exact (proj2 (storeBlob_object_key alice hello_world (Some "") whole_archive_run
                  remote_answer initial_world w1 w2 hello_packed alice_config
                  H1 H2 H3 H4)).
Defined.

Lemma store_validates_first_witness :
  snd (validateERC1155 broken_nft)
  = Throw (Js.TypeError "string property `description` describing asset is required")
  /\ store alice broken_nft None whole_archive_run (Return remote_answer) initial_world
     = (Throw (Js.TypeError "string property `description` describing asset is required"),
        initial_world).
Proof.
  assert (H1 : snd (validateERC1155 broken_nft)
               = Throw (Js.TypeError "string property `description` describing asset is required"))
    by reflexivity.
  refine (conj H1 _).
  exact (proj2 (store_validates_first alice broken_nft None whole_archive_run
                  (Return remote_answer) initial_world _ H1)).
Defined.


Lemma progress_callbacks_are_differences_witness :
  configure alice (Some (Js.or_nat (maxRetries with_callbacks) MAX_STORE_RETRIES))
            initial_world = (Return alice_config, alice_world)
  /\ numeric (delivered whole_archive_run)
  /\ onStoredChunk with_callbacks = true
  /\ stored_chunks (trace (snd (storeCar alice hello_car "hello" with_callbacks
                                  whole_archive_run (Return remote_answer) initial_world)))
     = [17 - (1 # 100)]%Q.
Proof.
  assert (H1 : configure alice
                 (Some (Js.or_nat (maxRetries with_callbacks) MAX_STORE_RETRIES))
                 initial_world = (Return alice_config, alice_world)) by reflexivity.
  assert (H2 : numeric (delivered whole_archive_run)) by (repeat constructor).
  assert (H3 : onStoredChunk with_callbacks = true) by reflexivity.
  refine (conj H1 (conj H2 (conj H3 _))).
  exact (proj1 (progress_callbacks_are_differences alice hello_car "hello" with_callbacks
                  (delivered whole_archive_run) remote_answer initial_world alice_world
                  alice_config H1 H2 H3)).
Defined.


End MoreScenarios.
